(** * GoAudio [wave] writer: a shallow embedding of [wave/writer.go]

    The development follows the source file top to bottom: the constant
    tags, the little-endian append helpers, the sample rescaler and packer,
    the three chunk builders and the orchestration that pushes them to an
    [io.Writer].

    Conventions.
    - A Go [int] is a 64-bit two's complement integer; it is carried as a
      [Z] and every arithmetic result is reduced by [wrap_int].
    - A Go [byte] is [Byte.byte]; a [[]byte] is a [list byte].
    - A Go [float64] is a [spec_float] read at precision 53 and maximal
      exponent 1024 (IEEE-754 binary64, round to nearest even).
    - A Go [map] is a [gmap]; reading an absent key yields the zero value
      of the element type, which for a function type is [nil].
    - A run-time panic is the [Panic] constructor of [outcome]. *)

From Stdlib Require Import ZArith Lia List Bool.
From Stdlib Require Import Strings.Byte Strings.String.
From Stdlib Require Import Floats.SpecFloat.
From stdpp Require Import base option list gmap.

Import ListNotations.
Local Open Scope Z_scope.

(** ** Machine integers *)

Module GoInt.

(** The bounds of [int] on a 64-bit target. *)
Definition min_int : Z := - 2 ^ 63.
Definition max_int : Z := 2 ^ 63 - 1.

Definition in_int (z : Z) : Prop := min_int <= z <= max_int.

(** Two's complement wrap-around of an [int] result. *)
Definition wrap_int (z : Z) : Z := (z + 2 ^ 63) mod 2 ^ 64 - 2 ^ 63.

Definition int_add (a b : Z) : Z := wrap_int (a + b).
Definition int_mul (a b : Z) : Z := wrap_int (a * b).

(** Go's [/] on integers truncates toward zero. *)
Definition int_div (a b : Z) : Z := wrap_int (Z.quot a b).

(** The conversions [uint16(i)] and [uint32(i)] keep the low bits. *)
Definition uint16 (i : Z) : Z := i mod 2 ^ 16.
Definition uint32 (i : Z) : Z := i mod 2 ^ 32.

(** The conversion [byte(v)] of an unsigned value keeps its low 8 bits. *)
Definition byte_of_Z (v : Z) : byte :=
  match Byte.of_N (Z.to_N (v mod 256)) with
  | Some b => b
  | None => x00
  end.

Definition Z_of_byte (b : byte) : Z := Z.of_N (Byte.to_N b).

End GoInt.
Import GoInt.

(** ** [encoding/binary]: the little-endian appenders used by the writer *)

Module LittleEndian.

(** [append(b, byte(v), byte(v>>8))] *)
Definition AppendUint16 (b : list byte) (v : Z) : list byte :=
  b ++ [byte_of_Z v; byte_of_Z (Z.shiftr v 8)].

(** [append(b, byte(v), byte(v>>8), byte(v>>16), byte(v>>24))] *)
Definition AppendUint32 (b : list byte) (v : Z) : list byte :=
  b ++ [byte_of_Z v; byte_of_Z (Z.shiftr v 8);
        byte_of_Z (Z.shiftr v 16); byte_of_Z (Z.shiftr v 24)].

(** Reading a little-endian field back, least significant byte first.
    This is the reader's view of a field and is used only in
    statements. *)
Fixpoint decode (bs : list byte) : Z :=
  match bs with
  | [] => 0
  | b :: rest => Z_of_byte b + 256 * decode rest
  end.

(** The reference encoding of [v] on [n] bytes: repeatedly emit the
    remainder modulo 256 and continue with the quotient. *)
Fixpoint encode (n : nat) (v : Z) : list byte :=
  match n with
  | O => []
  | S k => byte_of_Z (v mod 256) :: encode k (v / 256)
  end.

End LittleEndian.

(** ** Constants that appear in the .WAVE file format *)

Definition ChunkID : list byte := [x52; x49; x46; x46].          (* RIFF *)
Definition BigEndianChunkID : list byte := [x52; x49; x46; x58]. (* RIFX *)
Definition WaveID : list byte := [x57; x41; x56; x45].           (* WAVE *)
Definition Format : list byte := [x66; x6d; x74; x20].           (* fmt  *)
Definition Subchunk2ID : list byte := [x64; x61; x74; x61].      (* data *)

(** [type appendIntFunc func(b []byte, i int) []byte] *)
Definition appendIntFunc : Type := list byte -> Z -> list byte.

Definition appendInt16 (b : list byte) (i : Z) : list byte :=
  let in_ := uint16 i in
  LittleEndian.AppendUint16 b in_.

Definition appendInt32 (b : list byte) (i : Z) : list byte :=
  let in_ := uint32 i in
  LittleEndian.AppendUint32 b in_.

(** [appendIntFm] maps an X-bit width to the function appending such an
    integer to a buffer. *)
Definition appendIntFm : gmap Z appendIntFunc :=
  <[16 := appendInt16]> (<[32 := appendInt32]> ∅).


(** ** [float64] *)

Module Float64.

Definition prec : Z := 53.
Definition emax : Z := 1024.

Definition float64 : Type := spec_float.

(** A value of the type proper: canonical mantissa, exponent in range. *)
Definition valid (f : float64) : bool := valid_binary prec emax f.

(** [x * y], rounded to nearest, ties to even. *)
Definition mul (x y : float64) : float64 := SFmul prec emax x y.

(** The conversion [float64(i)] of an [int], rounded to nearest even. *)
Definition of_int (i : Z) : float64 := binary_normalize prec emax i 0 false.

(** Discarding the fraction of a finite value: the mantissa is shifted
    by the exponent and the sign is put back. *)
Definition truncate (f : float64) : option Z :=
  match f with
  | S754_zero _ => Some 0
  | S754_finite s m (Zneg k) => Some (cond_Zopp s (Z.shiftr (Zpos m) (Zpos k)))
  | S754_finite s m e => Some (cond_Zopp s (Z.shiftl (Zpos m) e))
  | S754_infinity _ | S754_nan => None
  end.

(** The conversion [int(f)]: the fraction is discarded (truncation
    toward zero).  When the result type cannot represent the value, the
    conversion succeeds but the result is implementation-dependent; it
    is supplied by [unrepresentable]. *)
Definition to_int (unrepresentable : float64 -> Z) (f : float64) : Z :=
  match truncate f with
  | Some z => if (min_int <=? z) && (z <=? max_int) then z else unrepresentable f
  | None => unrepresentable f
  end.

(** The mathematical value of a finite float as a fraction
    [numerator / denominator] with a positive denominator. *)
Definition numerator (f : float64) : Z :=
  match f with
  | S754_finite s m e => cond_Zopp s (Zpos m * 2 ^ Z.max e 0)
  | _ => 0
  end.

Definition denominator (f : float64) : Z :=
  match f with
  | S754_finite _ _ e => 2 ^ Z.max (- e) 0
  | _ => 1
  end.

Definition is_finite (f : float64) : bool :=
  match f with
  | S754_zero _ | S754_finite _ _ _ => true
  | _ => false
  end.

Definition one : float64 := S754_finite false (2 ^ 52) (-52).
Definition two : float64 := S754_finite false (2 ^ 52) (-51).
Definition zero : float64 := S754_zero false.

End Float64.

(** ** Panics *)

Inductive outcome (A : Type) : Type :=
| Done (a : A)
| Panic.
Arguments Done {A} a.
Arguments Panic {A}.

(** ** Types of the package used by the writer

    The declarations of [Frame], [WaveFmt] and [WaveData] are in another
    file of package [wave]; the fields below are the ones [writer.go]
    reads and writes, with the types its expressions give them. *)

(** [type Frame float64] *)
Definition Frame : Type := Float64.float64.

Record WaveFmt : Type := {
  Subchunk1ID   : list byte;
  Subchunk1Size : Z;
  AudioFormat   : Z;
  NumChannels   : Z;
  SampleRate    : Z;
  ByteRate      : Z;
  BlockAlign    : Z;
  BitsPerSample : Z
}.

(** The first field is [Subchunk2ID] in the source; it is prefixed here
    because the package-level tag of the same name is a constant of this
    file. *)
Record WaveData : Type := {
  wd_Subchunk2ID : list byte;
  Subchunk2Size  : Z;
  RawData        : list byte;
  Frames         : list Frame
}.

(** What [writer.go] takes from outside the file.

    - [maxValues], a [map[int]int] of package [wave] declared in another
      file ("max value depending on the bit size").
    - The value Go's [int(f)] yields when [f] is not representable, which
      the language leaves to the implementation. *)
Class Externals : Type := {
  maxValues : gmap Z Z;
  unrepresentable : Float64.float64 -> Z
}.

(** Modelled from the spec: the [maxValues] table is missing from the
    sources at hand.  The design text describes its entries as "the
    maximum representable magnitude for the target width (e.g., for
    16-bit, the maximum positive signed value)", for the two supported
    widths 16 and 32. *)
Definition specMaxValues : gmap Z Z :=
  <[16 := 2 ^ 15 - 1]> (<[32 := 2 ^ 31 - 1]> ∅).

(** A 64-bit x86 target: the hardware conversion returns the "integer
    indefinite" value [0x8000000000000000] for every unrepresentable
    input. *)
Definition amd64 : Externals := {|
  maxValues := specMaxValues;
  unrepresentable := fun _ => min_int
|}.

(** ** [io.Writer] *)

Definition error : Type := string.

(** [Write(p []byte) (n int, err error)].  The interface contract
    requires a non-nil error whenever [n < len(p)]. *)
Class Writer (W : Type) : Type := {
  Write : W -> list byte -> W * (nat * option error);
  Write_contract :
    forall w p w' n, Write w p = (w', (n, None)) -> n = length p
}.

(** ** The writer *)

Section Writer.

Context {ext : Externals}.

(** rescale frames back to the original values.. *)
Definition rescaleFrame (s : Frame) (bits : Z) : Z :=
  let rescaled :=
    Float64.mul s (Float64.of_int (default 0 (maxValues !! bits))) in
  Float64.to_int unrepresentable rescaled.

(** The body of the [for _, s := range samples] loop of
    [samplesToRawData], with [raw] as the loop-carried buffer.  Calling
    the [nil] function that an absent key of [appendIntFm] yields
    panics. *)
Fixpoint samplesToRawData_loop
    (samples : list Frame) (props : WaveFmt) (raw : list byte)
    : outcome (list byte) :=
  match samples with
  | [] => Done raw
  | s :: rest =>
      let rescaled := rescaleFrame s (BitsPerSample props) in
      let appendInt : option appendIntFunc :=
        appendIntFm !! BitsPerSample props in
      match appendInt with
      | Some appendInt =>
          samplesToRawData_loop rest props (appendInt raw rescaled)
      | None => Panic
      end
  end.

(** Turn the samples into raw data... *)
Definition samplesToRawData (samples : list Frame) (props : WaveFmt)
    : outcome (list byte) :=
  let raw := [] in
  samplesToRawData_loop samples props raw.

Definition framesToData (frames : list Frame) (wfmt : WaveFmt)
    : outcome (WaveData * list byte) :=
  match samplesToRawData frames wfmt with
  | Panic => Panic
  | Done raw =>
      let subchunksize :=
        int_div
          (int_mul (int_mul (Z.of_nat (length frames)) (NumChannels wfmt))
                   (BitsPerSample wfmt))
          8 in
      let b := [] in
      let b := b ++ Subchunk2ID in
      let b := appendInt32 b subchunksize in
      let b := b ++ raw in
      let wd := {| wd_Subchunk2ID := Subchunk2ID;
                   Subchunk2Size := subchunksize;
                   RawData := raw;
                   Frames := frames |} in
      Done (wd, b)
  end.

(** The source carries the leftovers of an unresolved merge between
    lines 132 and 144: a first [b := []byte{}] followed by seven calls
    whose results are never used, then [b := make([]byte, 0, 23)].  Both
    sides start from an empty buffer; the appends below are common to
    both. *)
Definition fmtToBytes (wfmt : WaveFmt) : list byte :=
  let b := [] in
  let b := b ++ Subchunk1ID wfmt in
  let b := appendInt32 b (Subchunk1Size wfmt) in
  let b := appendInt16 b (AudioFormat wfmt) in
  let b := appendInt16 b (NumChannels wfmt) in
  let b := appendInt32 b (SampleRate wfmt) in
  let b := appendInt32 b (ByteRate wfmt) in
  let b := appendInt16 b (BlockAlign wfmt) in
  let b := appendInt16 b (BitsPerSample wfmt) in
  b.

(** turn the sample to a valid header *)
Definition createHeader (wd : WaveData) : list byte :=
  let chunksize := int_add 36 (Subchunk2Size wd) in
  let bits := [] in
  let bits := bits ++ ChunkID in
  let bits := appendInt32 bits chunksize in
  let bits := bits ++ WaveID in
  bits.

(** The result pairs the writer after the call with what the call
    did: [Done None] is a [nil] error, [Done (Some e)] a returned error
    and [Panic] a panic raised before control came back. *)
Definition WriteWaveToWriter {W : Type} `{Writer W}
    (samples : list Frame) (wfmt : WaveFmt) (writer : W)
    : W * outcome (option error) :=
  let wfb := fmtToBytes wfmt in
  match framesToData samples wfmt with
  | Panic => (writer, Panic)
  | Done (data, databits) =>
      let hdr := createHeader data in
      let '(writer, (_, err)) := Write writer hdr in
      match err with
      | Some e => (writer, Done (Some e))
      | None =>
          let '(writer, (_, err)) := Write writer wfb in
          match err with
          | Some e => (writer, Done (Some e))
          | None =>
              let '(writer, (_, err)) := Write writer databits in
              match err with
              | Some e => (writer, Done (Some e))
              | None => (writer, Done None)
              end
          end
      end
  end.

End Writer.

(** ** Writers *)

(** An in-memory buffer in the manner of [bytes.Buffer]: every write is
    appended and none fails. *)
Record Buffer : Type := { contents : list byte }.

#[export] Program Instance Buffer_Writer : Writer Buffer := {|
  Write b p := ({| contents := contents b ++ p |}, (length p, None))
|}.
Next Obligation. intros w p w' n Heq. congruence. Qed.

(** A device with [free] bytes left: a write that does not fit stores
    what fits and reports the shortfall. *)
Record Device : Type := { stored : list byte; free : nat }.

Definition ENOSPC : error := "no space left on device"%string.

#[export] Program Instance Device_Writer : Writer Device := {|
  Write d p :=
    if (length p <=? free d)%nat
    then ({| stored := stored d ++ p; free := free d - length p |},
          (length p, None))
    else ({| stored := stored d ++ firstn (free d) p; free := 0 |},
          (free d, Some ENOSPC))
|}.
Next Obligation.
  intros w p w' n Heq. cbv beta in Heq.
  destruct (length p <=? free w)%nat; congruence.
Qed.

(** A writer that forwards to another one and keeps a journal of every
    [Write] call it received with what the call returned. *)
Record Call : Type := {
  payload : list byte;
  ret_n   : nat;
  ret_err : option error
}.

Record Recorder (W : Type) : Type := {
  inner   : W;
  journal : list Call
}.
Arguments inner {W} _.
Arguments journal {W} _.

Definition record {W : Type} (w : W) : Recorder W :=
  {| inner := w; journal := [] |}.

#[export] Program Instance Recorder_Writer {W : Type} `{Writer W}
  : Writer (Recorder W) := {|
  Write r p :=
    let '(w', (n, err)) := Write (inner r) p in
    ({| inner := w';
        journal := journal r ++ [{| payload := p; ret_n := n; ret_err := err |}] |},
     (n, err))
|}.
Next Obligation.
  intros W HW r p r' n. cbn.
  destruct (Write (inner r) p) as [w' [n' err]] eqn:E.
  intros Heq. inversion Heq; subst. eapply Write_contract; eauto.
Qed.

(** ** Reading a file back

    The reader's side of the format, used to state what was written. *)

(** The [len] bytes found at offset [off]. *)
Definition field (off len : nat) (file : list byte) : list byte :=
  firstn len (skipn off file).

Definition uint32_at (off : nat) (file : list byte) : Z :=
  LittleEndian.decode (field off 4 file).

Definition uint16_at (off : nat) (file : list byte) : Z :=
  LittleEndian.decode (field off 2 file).

(** One entry of a recorder's journal. *)
Definition call (p : list byte) (n : nat) (err : option error) : Call :=
  {| payload := p; ret_n := n; ret_err := err |}.

(** Everything a recorder was asked to write, in order. *)
Definition requested {W : Type} (r : Recorder W) : list byte :=
  concat (map payload (journal r)).

(** What one sample is expected to contribute to the raw data: the
    reference encoding, on [bits / 8] bytes, of the low [bits] bits of its
    rescaled value. *)
Definition packed {ext : Externals} (bits : Z) (s : Frame) : list byte :=
  LittleEndian.encode (Z.to_nat (bits / 8)) (rescaleFrame s bits mod 2 ^ bits).

(** The size [framesToData] computes for [n] frames: the [int]
    expression [(n * NumChannels * BitsPerSample) / 8]. *)
Definition subchunksize (n : nat) (wfmt : WaveFmt) : Z :=
  int_div
    (int_mul (int_mul (Z.of_nat n) (NumChannels wfmt)) (BitsPerSample wfmt))
    8.

(** ** Sample inputs *)

Definition pcm (channels bits : Z) : WaveFmt := {|
  Subchunk1ID   := Format;
  Subchunk1Size := 16;
  AudioFormat   := 1;
  NumChannels   := channels;
  SampleRate    := 44100;
  ByteRate      := 44100 * channels * (bits / 8);
  BlockAlign    := channels * (bits / 8);
  BitsPerSample := bits
|}.

Definition mono16 : WaveFmt := pcm 1 16.
Definition stereo16 : WaveFmt := pcm 2 16.
Definition mono8 : WaveFmt := pcm 1 8.

Definition emptyBuffer : Buffer := {| contents := [] |}.

(** A descriptor that announces another tag and more channels than the
    16-bit field can count. *)
Definition oddFmt : WaveFmt := {|
  Subchunk1ID   := [x4c; x49; x53; x54]; (* LIST *)
  Subchunk1Size := 16;
  AudioFormat   := 1;
  NumChannels   := 65537;
  SampleRate    := 44100;
  ByteRate      := 88200;
  BlockAlign    := 2;
  BitsPerSample := 16
|}.

(** The binary64 number just below [1 / 32767], [0x1.0002000400080p-15]. *)
Definition belowStep : Float64.float64 :=
  S754_finite false 0x10002000400080 (-67).

(** * The rest of [writer.go] *)

(** ** Slices

    A [[]byte] seen with its capacity: the array it points to and the
    number of elements in view.  Only slices that start at the beginning
    of their array occur in the file. *)

Record Slice : Type := { array : list byte; len : nat }.

Definition cap (s : Slice) : nat := length (array s).

(** The elements in view. *)
Definition elements (s : Slice) : list byte := firstn (len s) (array s).

(** [make([]byte, n, c)] *)
Definition make (n c : nat) : Slice := {| array := repeat x00 c; len := n |}.

(** [s[:hi]]: the bound is checked against the capacity. *)
Definition reslice (s : Slice) (hi : nat) : outcome Slice :=
  if (hi <=? cap s)%nat then Done {| array := array s; len := hi |} else Panic.

(** [binary.LittleEndian.PutUint64(b, v)]: the early bounds check
    [_ = b[7]] is against the length, then the eight bytes are stored in
    place. *)
Definition PutUint64 (b : Slice) (v : Z) : outcome Slice :=
  if (7 <? len b)%nat
  then Done {| array :=
                 [byte_of_Z v; byte_of_Z (Z.shiftr v 8);
                  byte_of_Z (Z.shiftr v 16); byte_of_Z (Z.shiftr v 24);
                  byte_of_Z (Z.shiftr v 32); byte_of_Z (Z.shiftr v 40);
                  byte_of_Z (Z.shiftr v 48); byte_of_Z (Z.shiftr v 56)]
                 ++ skipn 8 (array b);
               len := len b |}
  else Panic.

(** [math.Float64bits]: the IEEE-754 binary representation.  A
    [spec_float] carries no NaN payload, so the pattern of the NaN at
    hand is [nan]. *)
Definition Float64bits (nan : Z) (f : Float64.float64) : Z :=
  let sign (s : bool) : Z := if s then 2 ^ 63 else 0 in
  match f with
  | S754_zero s => sign s
  | S754_infinity s => sign s + 2047 * 2 ^ 52
  | S754_nan => nan
  | S754_finite s m e =>
      if Z.pos (digits2_pos m) =? 53
      then sign s + (e + 1075) * 2 ^ 52 + (Z.pos m - 2 ^ 52)
      else sign s + Z.pos m
  end.

Definition floatToBytes (nan : Z) (f : Float64.float64) (nBytes : Z)
    : outcome Slice :=
  let bits := Float64bits nan f in
  let bs := make 0 8 in
  match PutUint64 bs bits with
  | Panic => Panic
  | Done bs =>
      (* trim padding *)
      if nBytes =? 2 then reslice bs 2
      else if nBytes =? 4 then reslice bs 4
      else Done bs
  end.

(** ** [os]: files *)

(** [os.Create] and the [Write] and [Close] methods of [os.File] over a state
    [FS] of the file system, with [File] the open handles.  [Create]
    yields either a handle or an error; [Write] obeys the contract of
    [io.Writer]. *)
Class FileSystem (FS File : Type) : Type := {
  os_Create : FS -> string -> FS * (File + error);
  File_Write : FS -> File -> list byte -> FS * (nat * option error);
  File_Close : FS -> File -> FS * option error;
  File_Write_contract :
    forall fs f p fs' n, File_Write fs f p = (fs', (n, None)) -> n = length p
}.

(** An open file is an [io.Writer]: the state is the file system and the
    handle, and the handle stays. *)
#[export] Program Instance OpenFile_Writer {FS File : Type}
  `{FileSystem FS File} : Writer (FS * File) := {|
  Write w p :=
    let '(fs', r) := File_Write (fst w) (snd w) p in
    ((fs', snd w), r)
|}.
Next Obligation.
  intros FS File HFS w p w' n. cbv beta.
  destruct (File_Write (fst w) (snd w) p) as [fs' [n' err]] eqn:E.
  intros Heq. inversion Heq; subst. eapply File_Write_contract; eauto.
Qed.

Section Files.

Context {ext : Externals}.
Context {FS File : Type} `{FileSystem FS File}.

(** [defer f.Close()] runs when the function returns and when it
    panics; what [Close] returns is dropped. *)
Definition WriteWaveFile
    (samples : list Frame) (wfmt : WaveFmt) (file : string) (fs : FS)
    : FS * outcome (option error) :=
  match os_Create fs file with
  | (fs, inr err) => (fs, Done (Some err))
  | (fs, inl f) =>
      let '(w, result) := WriteWaveToWriter samples wfmt (fs, f) in
      let '(fs, _) := File_Close (fst w) f in
      (fs, result)
  end.

(** WriteFrames writes the slice to disk as a .wav file *)
Definition WriteFrames
    (samples : list Frame) (wfmt : WaveFmt) (file : string) (fs : FS)
    : FS * outcome (option error) :=
  WriteWaveFile samples wfmt file fs.

End Files.

(** ** File systems *)

(** The calls a file system received, with what each returned. *)
Inductive OsCall : Type :=
| CallCreate (name : string) (err : option error)
| CallWrite (p : list byte) (n : nat) (err : option error)
| CallClose (err : option error).

(** A file system that forwards to another one and keeps the list of
    the calls it received. *)
Record Traced (FS : Type) : Type := { world : FS; calls : list OsCall }.
Arguments world {FS} _.
Arguments calls {FS} _.

Definition traced {FS : Type} (fs : FS) : Traced FS :=
  {| world := fs; calls := [] |}.

#[export] Program Instance Traced_FileSystem {FS File : Type}
  `{FileSystem FS File} : FileSystem (Traced FS) File := {|
  os_Create t name :=
    let '(fs', r) := os_Create (world t) name in
    ({| world := fs';
        calls := calls t ++ [CallCreate name
                               match r with inl _ => None | inr e => Some e end] |},
     r);
  File_Write t f p :=
    let '(fs', (n, err)) := File_Write (world t) f p in
    ({| world := fs'; calls := calls t ++ [CallWrite p n err] |}, (n, err));
  File_Close t f :=
    let '(fs', err) := File_Close (world t) f in
    ({| world := fs'; calls := calls t ++ [CallClose err] |}, err)
|}.
Next Obligation.
  intros FS File HFS t f p t' n. cbv beta.
  destruct (File_Write (world t) f p) as [fs' [n' err]] eqn:E.
  intros Heq. inversion Heq; subst. eapply File_Write_contract; eauto.
Qed.

(** Files in memory, by name.  [Create] truncates or creates the named
    file and fails on the empty name; the handle of an open file is its
    name; [Write] appends and [Close] releases the handle; both fail on a
    handle that is not open. *)
Record MemFS : Type := {
  files  : list (string * list byte);
  opened : list string
}.

Definition ENOENT : error := "no such file or directory"%string.
Definition ErrClosed : error := "file already closed"%string.

Fixpoint mem_lookup (name : string) (l : list (string * list byte))
    : option (list byte) :=
  match l with
  | [] => None
  | (k, v) :: rest => if String.eqb k name then Some v else mem_lookup name rest
  end.

Fixpoint mem_remove (name : string) (l : list (string * list byte))
    : list (string * list byte) :=
  match l with
  | [] => []
  | (k, v) :: rest =>
      if String.eqb k name then mem_remove name rest
      else (k, v) :: mem_remove name rest
  end.

Definition mem_store (name : string) (v : list byte)
    (l : list (string * list byte)) : list (string * list byte) :=
  (name, v) :: mem_remove name l.

Definition is_open (name : string) (fs : MemFS) : bool :=
  existsb (String.eqb name) (opened fs).

#[export] Program Instance MemFS_FileSystem : FileSystem MemFS string := {|
  os_Create fs name :=
    if String.eqb name EmptyString then (fs, inr ENOENT)
    else ({| files := mem_store name [] (files fs);
             opened := name :: opened fs |}, inl name);
  File_Write fs f p :=
    if is_open f fs
    then ({| files := mem_store f (default [] (mem_lookup f (files fs)) ++ p)
                                  (files fs);
             opened := opened fs |}, (length p, None))
    else (fs, (0%nat, Some ErrClosed));
  File_Close fs f :=
    if is_open f fs
    then ({| files := files fs;
             opened := List.filter (fun g => negb (String.eqb f g)) (opened fs) |},
          None)
    else (fs, Some ErrClosed)
|}.
Next Obligation.
  intros fs f p fs' n. cbv beta.
  destruct (is_open f fs); congruence.
Qed.

(** ** Reading a signed field back *)

(** The two's complement reading of the [n]-byte little-endian field
    [bs]. *)
Definition decode_signed (bs : list byte) : Z :=
  let v := LittleEndian.decode bs in
  let width := 8 * Z.of_nat (length bs) in
  if v <? 2 ^ (width - 1) then v else v - 2 ^ width.

(** Unary minus on [float64]. *)
Definition Float64_neg (f : Float64.float64) : Float64.float64 := SFopp f.

(** A descriptor whose numeric fields fit the fields of the format
    chunk. *)
Definition fits_format_chunk (wfmt : WaveFmt) : Prop :=
  0 <= Subchunk1Size wfmt < 2 ^ 32 /\
  0 <= AudioFormat wfmt < 2 ^ 16 /\
  0 <= NumChannels wfmt < 2 ^ 16 /\
  0 <= SampleRate wfmt < 2 ^ 32 /\
  0 <= ByteRate wfmt < 2 ^ 32 /\
  0 <= BlockAlign wfmt < 2 ^ 16 /\
  0 <= BitsPerSample wfmt < 2 ^ 16.

(** [writes_upto regions ws r]: [ws] are the [Write] calls of an attempt
    to write [regions] one after the other that stops at the first error,
    and [r] is that error, or [None] when every region was accepted in
    full. *)
Inductive writes_upto : list (list byte) -> list OsCall -> option error -> Prop :=
| writes_upto_nil : writes_upto [] [] None
| writes_upto_fail (p : list byte) (rest : list (list byte)) (n : nat) (e : error) :
    writes_upto (p :: rest) [CallWrite p n (Some e)] (Some e)
| writes_upto_ok (p : list byte) (rest : list (list byte))
                 (ws : list OsCall) (r : option error) :
    writes_upto rest ws r ->
    writes_upto (p :: rest) (CallWrite p (length p) None :: ws) r.

Definition is_write (c : OsCall) : Prop :=
  match c with
  | CallWrite _ _ _ => True
  | _ => False
  end.

(** A file system on which closing always reports an error after the
    handle is released. *)
Record CloseFails : Type := { under : MemFS }.

Definition EIO : error := "input/output error"%string.

#[export] Program Instance CloseFails_FileSystem : FileSystem CloseFails string := {|
  os_Create fs name :=
    let '(m, r) := os_Create (under fs) name in ({| under := m |}, r);
  File_Write fs f p :=
    let '(m, r) := File_Write (under fs) f p in ({| under := m |}, r);
  File_Close fs f :=
    let '(m, _) := File_Close (under fs) f in ({| under := m |}, Some EIO)
|}.
Next Obligation.
  intros fs f p fs' n. cbv beta.
  destruct (File_Write (under fs) f p) as [m [n' err]] eqn:E.
  intros Heq. inversion Heq; subst. eapply File_Write_contract; eauto.
Qed.

Definition emptyFS : MemFS := {| files := []; opened := [] |}.

(** A file system that already holds two files. *)
Definition someFS : MemFS := {|
  files := [("take.wav"%string, [x01; x02; x03]); ("notes.txt"%string, [x68; x69])];
  opened := []
|}.

(** * Properties *)

(** ** Bytes and little-endian fields *)

Lemma Z_of_byte_range (b : byte) : 0 <= Z_of_byte b < 256.
Proof.
  unfold Z_of_byte. pose proof (Byte.to_N_bounded b) as Hb. lia.
Qed.

Lemma Z_of_byte_of_Z (v : Z) : Z_of_byte (byte_of_Z v) = v mod 256.
Proof.
  unfold Z_of_byte, byte_of_Z.
  pose proof (Z.mod_pos_bound v 256 ltac:(lia)) as Hr.
  destruct (Byte.of_N (Z.to_N (v mod 256))) as [b|] eqn:E.
  - apply Byte.to_of_N in E. rewrite E. lia.
  - apply Byte.of_N_None_iff in E. lia.
Qed.

Lemma byte_of_Z_mod (v : Z) : byte_of_Z (v mod 256) = byte_of_Z v.
Proof. unfold byte_of_Z. now rewrite Z.mod_mod by lia. Qed.

Lemma byte_of_Z_of_byte (b : byte) : byte_of_Z (Z_of_byte b) = b.
Proof.
  unfold byte_of_Z, Z_of_byte.
  pose proof (Byte.to_N_bounded b) as Hb.
  rewrite Z.mod_small by lia. rewrite N2Z.id. now rewrite Byte.of_to_N.
Qed.

Module LittleEndianFacts.
Import LittleEndian.

Lemma encode_length (n : nat) (v : Z) : length (encode n v) = n.
Proof. revert v; induction n as [|n IH]; intros v; simpl; [|rewrite IH]; reflexivity. Qed.

Lemma decode_encode (n : nat) (v : Z) :
  decode (encode n v) = v mod 256 ^ Z.of_nat n.
Proof.
  revert v; induction n as [|n IH]; intros v.
  - simpl. now rewrite Z.mod_1_r.
  - cbn [encode decode]. rewrite IH, Z_of_byte_of_Z, Z.mod_mod by lia.
    rewrite Nat2Z.inj_succ, Z.pow_succ_r by lia.
    rewrite (Z.rem_mul_r v 256 (256 ^ Z.of_nat n)) by lia. reflexivity.
Qed.

Lemma decode_range (bs : list byte) :
  0 <= decode bs < 256 ^ Z.of_nat (length bs).
Proof.
  induction bs as [|b bs IH].
  - simpl. lia.
  - cbn [decode length]. rewrite Nat2Z.inj_succ, Z.pow_succ_r by lia.
    pose proof (Z_of_byte_range b). lia.
Qed.

Lemma encode_decode (bs : list byte) : encode (length bs) (decode bs) = bs.
Proof.
  induction bs as [|b bs IH]; [reflexivity|].
  cbn [decode length encode].
  pose proof (Z_of_byte_range b) as Hb.
  assert (Hm : (Z_of_byte b + 256 * decode bs) mod 256 = Z_of_byte b).
  { replace (Z_of_byte b + 256 * decode bs)
      with (Z_of_byte b + decode bs * 256) by lia.
    rewrite Z.mod_add by lia. now apply Z.mod_small. }
  assert (Hd : (Z_of_byte b + 256 * decode bs) / 256 = decode bs).
  { replace (Z_of_byte b + 256 * decode bs)
      with (Z_of_byte b + decode bs * 256) by lia.
    rewrite Z.div_add by lia. rewrite Z.div_small by lia. lia. }
  rewrite Hm, Hd, IH, byte_of_Z_of_byte. reflexivity.
Qed.

Lemma AppendUint16_encode (b : list byte) (v : Z) :
  AppendUint16 b v = b ++ encode 2 v.
Proof.
  unfold AppendUint16. cbn [encode].
  rewrite !byte_of_Z_mod, Z.shiftr_div_pow2 by lia. reflexivity.
Qed.

Lemma AppendUint32_encode (b : list byte) (v : Z) :
  AppendUint32 b v = b ++ encode 4 v.
Proof.
  unfold AppendUint32. cbn [encode].
  rewrite !byte_of_Z_mod, !Z.shiftr_div_pow2 by lia.
  rewrite !Z.div_div by lia. reflexivity.
Qed.

End LittleEndianFacts.

Lemma appendInt16_encode (b : list byte) (i : Z) :
  appendInt16 b i = b ++ LittleEndian.encode 2 (i mod 2 ^ 16).
Proof. unfold appendInt16, uint16. apply LittleEndianFacts.AppendUint16_encode. Qed.

Lemma appendInt32_encode (b : list byte) (i : Z) :
  appendInt32 b i = b ++ LittleEndian.encode 4 (i mod 2 ^ 32).
Proof. unfold appendInt32, uint32. apply LittleEndianFacts.AppendUint32_encode. Qed.

Lemma decode_field16 (i : Z) :
  LittleEndian.decode (LittleEndian.encode 2 (i mod 2 ^ 16)) = i mod 2 ^ 16.
Proof.
  rewrite LittleEndianFacts.decode_encode.
  change (256 ^ Z.of_nat 2) with (2 ^ 16). now rewrite Z.mod_mod by lia.
Qed.

Lemma decode_field32 (i : Z) :
  LittleEndian.decode (LittleEndian.encode 4 (i mod 2 ^ 32)) = i mod 2 ^ 32.
Proof.
  rewrite LittleEndianFacts.decode_encode.
  change (256 ^ Z.of_nat 4) with (2 ^ 32). now rewrite Z.mod_mod by lia.
Qed.

Lemma wrap_int_id (z : Z) : in_int z -> wrap_int z = z.
Proof.
  unfold in_int, min_int, max_int, wrap_int. intros Hz.
  rewrite Z.mod_small by lia. lia.
Qed.

Lemma wrap_int_mod32 (z : Z) : wrap_int z mod 2 ^ 32 = z mod 2 ^ 32.
Proof.
  unfold wrap_int.
  rewrite (Z.mod_eq (z + 2 ^ 63) (2 ^ 64)) by lia.
  replace (z + 2 ^ 63 - 2 ^ 64 * ((z + 2 ^ 63) / 2 ^ 64) - 2 ^ 63)
    with (z + (- 2 ^ 32 * ((z + 2 ^ 63) / 2 ^ 64)) * 2 ^ 32) by lia.
  now rewrite Z.mod_add by lia.
Qed.

(** ** The width table *)

Lemma appendIntFm_16 : appendIntFm !! 16 = Some appendInt16.
Proof. reflexivity. Qed.

Lemma appendIntFm_32 : appendIntFm !! 32 = Some appendInt32.
Proof. unfold appendIntFm. rewrite lookup_insert_ne by lia. apply lookup_insert_eq. Qed.

Lemma appendIntFm_unsupported (bits : Z) :
  bits <> 16 -> bits <> 32 -> appendIntFm !! bits = None.
Proof.
  intros H16 H32. unfold appendIntFm.
  rewrite !lookup_insert_ne by congruence. apply lookup_empty.
Qed.

(** The entry for a supported width [bits] appends the reference
    encoding of the low [bits] bits on [bits / 8] bytes. *)
Lemma appendIntFm_supported (bits : Z) :
  bits = 16 \/ bits = 32 ->
  exists f : appendIntFunc,
    appendIntFm !! bits = Some f /\
    forall b i,
      f b i = b ++ LittleEndian.encode (Z.to_nat (bits / 8)) (i mod 2 ^ bits).
Proof.
  intros [-> | ->].
  - exists appendInt16. split; [apply appendIntFm_16 | apply appendInt16_encode].
  - exists appendInt32. split; [apply appendIntFm_32 | apply appendInt32_encode].
Qed.

(** ** The packer *)

Section Packer.

Context {ext : Externals}.

Lemma packed_length (bits : Z) (s : Frame) :
  length (packed bits s) = Z.to_nat (bits / 8).
Proof. apply LittleEndianFacts.encode_length. Qed.

Lemma samplesToRawData_loop_supported
    (samples : list Frame) (props : WaveFmt) (raw : list byte) :
  BitsPerSample props = 16 \/ BitsPerSample props = 32 ->
  samplesToRawData_loop samples props raw =
    Done (raw ++ concat (map (packed (BitsPerSample props)) samples)).
Proof.
  intros Hb. destruct (appendIntFm_supported _ Hb) as (f & Hf & Hfe).
  revert raw. induction samples as [|s rest IH]; intros raw.
  - cbn. now rewrite app_nil_r.
  - cbn [samplesToRawData_loop map concat]. rewrite Hf, IH, Hfe.
    unfold packed. now rewrite <- app_assoc.
Qed.

Lemma samplesToRawData_loop_unsupported
    (s : Frame) (rest : list Frame) (props : WaveFmt) (raw : list byte) :
  BitsPerSample props <> 16 -> BitsPerSample props <> 32 ->
  samplesToRawData_loop (s :: rest) props raw = Panic.
Proof.
  intros H16 H32. cbn [samplesToRawData_loop].
  now rewrite appendIntFm_unsupported.
Qed.

Lemma samplesToRawData_supported (samples : list Frame) (props : WaveFmt) :
  BitsPerSample props = 16 \/ BitsPerSample props = 32 ->
  samplesToRawData samples props =
    Done (concat (map (packed (BitsPerSample props)) samples)).
Proof.
  intros Hb. unfold samplesToRawData.
  now rewrite samplesToRawData_loop_supported.
Qed.

Lemma concat_packed_length (bits : Z) (samples : list Frame) :
  length (concat (map (packed bits) samples)) =
    (length samples * Z.to_nat (bits / 8))%nat.
Proof.
  induction samples as [|s rest IH]; [reflexivity|].
  cbn [map concat length]. rewrite length_app, packed_length, IH. lia.
Qed.

(** The [i]-th block of [bits / 8] bytes is what the [i]-th sample
    contributed: blocks follow one another without gap. *)
Lemma concat_packed_block (bits : Z) (samples : list Frame) (i : nat) (s : Frame) :
  nth_error samples i = Some s ->
  field (i * Z.to_nat (bits / 8)) (Z.to_nat (bits / 8))
        (concat (map (packed bits) samples)) = packed bits s.
Proof.
  unfold field. revert i. induction samples as [|x rest IH]; intros i Hi.
  - destruct i; discriminate.
  - destruct i as [|i]; cbn [nth_error] in Hi.
    + injection Hi as ->. cbn [map concat Nat.mul]. rewrite skipn_O.
      rewrite firstn_app, packed_length, Nat.sub_diag.
      cbn [firstn]. rewrite app_nil_r.
      rewrite <- (packed_length bits s) at 1. apply firstn_all.
    + cbn [map concat].
      replace (S i * Z.to_nat (bits / 8))%nat
        with (length (packed bits x) + i * Z.to_nat (bits / 8))%nat
        by (rewrite packed_length; lia).
      rewrite skipn_app, Nat.add_comm, Nat.add_sub.
      rewrite skipn_all2 by lia. cbn [app]. now apply IH.
Qed.

End Packer.

(** ** The rescaler *)

Module Float64Facts.
Import Float64.

(** The conversion discards the fraction: it is the quotient, rounded
    toward zero, of the value's numerator by its denominator. *)
Lemma truncate_quot (f : float64) :
  is_finite f = true ->
  truncate f = Some (Z.quot (numerator f) (denominator f)).
Proof.
  destruct f as [s | s | | s m e]; cbn [is_finite]; try discriminate; intros _.
  - reflexivity.
  - destruct e as [|p|p]; cbn [truncate numerator denominator].
    + rewrite Z.shiftl_0_r. cbn. now rewrite Z.mul_1_r, Z.quot_1_r.
    + rewrite Z.shiftl_mul_pow2 by lia.
      rewrite Z.max_l, Z.max_r by lia. cbn [Z.pow]. now rewrite Z.quot_1_r.
    + rewrite Z.shiftr_div_pow2 by lia.
      rewrite Z.max_r by lia. change (- Z.neg p) with (Z.pos p).
      rewrite Z.max_l by lia. change (2 ^ 0) with 1. rewrite Z.mul_1_r.
      assert (Hden : 0 < 2 ^ Z.pos p) by (apply Z.pow_pos_nonneg; lia).
      destruct s; cbn [cond_Zopp].
      * rewrite Z.quot_opp_l by lia. now rewrite Z.quot_div_nonneg by lia.
      * now rewrite Z.quot_div_nonneg by lia.
Qed.

Lemma to_int_representable (u : float64 -> Z) (f : float64) :
  is_finite f = true ->
  in_int (Z.quot (numerator f) (denominator f)) ->
  to_int u f = Z.quot (numerator f) (denominator f).
Proof.
  intros Hf [Hlo Hhi]. unfold to_int. rewrite truncate_quot by assumption.
  apply Z.leb_le in Hlo, Hhi. now rewrite Hlo, Hhi.
Qed.

End Float64Facts.

Lemma rescaleFrame_one_16 {ext : Externals} :
  maxValues !! 16 = Some 32767 -> rescaleFrame Float64.one 16 = 32767.
Proof. intros Hmax. unfold rescaleFrame. rewrite Hmax. reflexivity. Qed.

(** The product is rounded to binary64 before its fraction is discarded:
    [belowStep * 32767] is less than 1 as a real number and rounds to
    1.0, which is what the rescaler converts. *)
Remark rescaleFrame_rounds_then_truncates :
  Float64.valid belowStep = true /\
  Z.quot (Float64.numerator belowStep * 32767) (Float64.denominator belowStep) = 0 /\
  rescaleFrame (ext := amd64) belowStep 16 = 1.
Proof. vm_compute. repeat split; reflexivity. Qed.

(** ** Fields of a byte sequence *)

Lemma field_app_skip (a rest : list byte) (off len : nat) :
  field (length a + off) len (a ++ rest) = field off len rest.
Proof.
  unfold field. rewrite skipn_app.
  rewrite skipn_all2 by lia.
  replace (length a + off - length a)%nat with off by lia. reflexivity.
Qed.

Lemma field_app_skip0 (a rest : list byte) (len : nat) :
  field (length a) len (a ++ rest) = field 0 len rest.
Proof. rewrite <- (Nat.add_0_r (length a)). apply field_app_skip. Qed.

Lemma field_here (a rest : list byte) :
  field 0 (length a) (a ++ rest) = a.
Proof.
  unfold field. rewrite skipn_O, firstn_app, Nat.sub_diag, firstn_all.
  cbn [firstn]. apply app_nil_r.
Qed.

Lemma field_whole (a : list byte) : field 0 (length a) a = a.
Proof. unfold field. rewrite skipn_O. apply firstn_all. Qed.

(** ** The three chunks *)

Section Chunks.

Context {ext : Externals}.

Lemma createHeader_layout (wd : WaveData) :
  createHeader wd =
    ChunkID
    ++ LittleEndian.encode 4 ((36 + Subchunk2Size wd) mod 2 ^ 32)
    ++ WaveID.
Proof.
  unfold createHeader, int_add.
  rewrite appendInt32_encode, wrap_int_mod32.
  cbn [app]. now rewrite <- app_assoc.
Qed.

Lemma createHeader_length (wd : WaveData) : length (createHeader wd) = 12%nat.
Proof. reflexivity. Qed.

Lemma fmtToBytes_layout (wfmt : WaveFmt) :
  fmtToBytes wfmt =
    Subchunk1ID wfmt
    ++ LittleEndian.encode 4 (Subchunk1Size wfmt mod 2 ^ 32)
    ++ LittleEndian.encode 2 (AudioFormat wfmt mod 2 ^ 16)
    ++ LittleEndian.encode 2 (NumChannels wfmt mod 2 ^ 16)
    ++ LittleEndian.encode 4 (SampleRate wfmt mod 2 ^ 32)
    ++ LittleEndian.encode 4 (ByteRate wfmt mod 2 ^ 32)
    ++ LittleEndian.encode 2 (BlockAlign wfmt mod 2 ^ 16)
    ++ LittleEndian.encode 2 (BitsPerSample wfmt mod 2 ^ 16).
Proof.
  unfold fmtToBytes.
  rewrite !appendInt16_encode, !appendInt32_encode.
  cbn [app]. now rewrite <- !app_assoc.
Qed.

Lemma fmtToBytes_length (wfmt : WaveFmt) :
  length (fmtToBytes wfmt) = (length (Subchunk1ID wfmt) + 20)%nat.
Proof.
  rewrite fmtToBytes_layout.
  rewrite !length_app, !LittleEndianFacts.encode_length. lia.
Qed.

(** Whenever the packer returns, so does [framesToData], with the tag,
    the computed size and the raw data in this order. *)
Lemma framesToData_Done
    (frames : list Frame) (wfmt : WaveFmt) (raw : list byte) :
  samplesToRawData frames wfmt = Done raw ->
  framesToData frames wfmt =
    Done ({| wd_Subchunk2ID := Subchunk2ID;
             Subchunk2Size := subchunksize (length frames) wfmt;
             RawData := raw;
             Frames := frames |},
          Subchunk2ID
          ++ LittleEndian.encode 4 (subchunksize (length frames) wfmt mod 2 ^ 32)
          ++ raw).
Proof.
  intros Hraw. unfold framesToData. rewrite Hraw.
  fold (subchunksize (length frames) wfmt).
  rewrite appendInt32_encode. cbn [app]. now rewrite <- app_assoc.
Qed.

Lemma framesToData_Panic (frames : list Frame) (wfmt : WaveFmt) :
  samplesToRawData frames wfmt = Panic ->
  framesToData frames wfmt = Panic.
Proof. intros Hraw. unfold framesToData. now rewrite Hraw. Qed.

Lemma framesToData_inv
    (frames : list Frame) (wfmt : WaveFmt) (wd : WaveData) (databits : list byte) :
  framesToData frames wfmt = Done (wd, databits) ->
  samplesToRawData frames wfmt = Done (RawData wd) /\
  Subchunk2Size wd = subchunksize (length frames) wfmt /\
  databits =
    Subchunk2ID
    ++ LittleEndian.encode 4 (subchunksize (length frames) wfmt mod 2 ^ 32)
    ++ RawData wd.
Proof.
  destruct (samplesToRawData frames wfmt) as [raw|] eqn:Hraw.
  - rewrite (framesToData_Done _ _ _ Hraw). intros [= <- <-]. now cbn.
  - rewrite (framesToData_Panic _ _ Hraw). discriminate.
Qed.

Lemma subchunksize_0 (wfmt : WaveFmt) : subchunksize 0 wfmt = 0.
Proof. reflexivity. Qed.

(** Without overflow the size is [n * NumChannels * (BitsPerSample / 8)]
    for the two supported widths. *)
Lemma subchunksize_exact (n : nat) (wfmt : WaveFmt) :
  BitsPerSample wfmt = 16 \/ BitsPerSample wfmt = 32 ->
  0 <= NumChannels wfmt ->
  Z.of_nat n * NumChannels wfmt * BitsPerSample wfmt <= max_int ->
  subchunksize n wfmt =
    Z.of_nat n * NumChannels wfmt * (BitsPerSample wfmt / 8).
Proof.
  intros Hb Hc Hmax. unfold subchunksize, int_div, int_mul.
  unfold max_int in Hmax.
  assert (Hnc : 0 <= Z.of_nat n * NumChannels wfmt) by lia.
  set (nc := Z.of_nat n * NumChannels wfmt) in *.
  assert (Hk : exists k, BitsPerSample wfmt = k * 8 /\ 1 < k)
    by (destruct Hb as [Hb | Hb]; rewrite Hb; [exists 2 | exists 4]; lia).
  destruct Hk as (k & Hk & Hk1). rewrite Hk in *.
  rewrite Z.div_mul by lia.
  rewrite (wrap_int_id nc) by (unfold in_int, min_int, max_int; nia).
  rewrite (wrap_int_id (nc * (k * 8)))
    by (unfold in_int, min_int, max_int; nia).
  rewrite Z.mul_assoc, Z.quot_mul by lia.
  apply wrap_int_id. unfold in_int, min_int, max_int. nia.
Qed.

End Chunks.

(** A field of known length laid out as explicit bytes. *)
Ltac explode_field e :=
  let l := fresh "l" in
  let Hl := fresh "Hl" in
  let Hlen := fresh "Hlen" in
  remember e as l eqn:Hl;
  assert (Hlen : length l = length e) by (now rewrite Hl);
  rewrite LittleEndianFacts.encode_length in Hlen;
  match type of Hl with
  | _ = LittleEndian.encode 2 (?v mod 2 ^ 16) =>
      let D := fresh "D" in
      pose proof (decode_field16 v) as D; rewrite <- Hl in D
  | _ = LittleEndian.encode 4 (?v mod 2 ^ 32) =>
      let D := fresh "D" in
      pose proof (decode_field32 v) as D; rewrite <- Hl in D
  end;
  clear Hl;
  repeat (destruct l as [|? l]; [discriminate Hlen|]);
  destruct l; [clear Hlen | discriminate Hlen].

Lemma field_here_n (a rest : list byte) (n : nat) :
  length a = n -> field 0 n (a ++ rest) = a.
Proof. intros <-. apply field_here. Qed.

Lemma field_whole_n (a : list byte) (n : nat) :
  length a = n -> field 0 n a = a.
Proof. intros <-. apply field_whole. Qed.

Lemma skipn_app_skip (a rest : list byte) (off : nat) :
  skipn (length a + off) (a ++ rest) = skipn off rest.
Proof.
  rewrite skipn_app, skipn_all2 by lia.
  replace (length a + off - length a)%nat with off by lia. reflexivity.
Qed.

(** ** Orchestration *)

Section Orchestration.

Context {ext : Externals}.

(** A panic of the packer leaves before the first [Write]. *)
Lemma WriteWaveToWriter_Panic {W : Type} `{Writer W}
    (samples : list Frame) (wfmt : WaveFmt) (w : W) :
  framesToData samples wfmt = Panic ->
  WriteWaveToWriter samples wfmt w = (w, Panic).
Proof. intros Hd. unfold WriteWaveToWriter. now rewrite Hd. Qed.

Lemma WriteWaveToWriter_no_Panic {W : Type} `{Writer W}
    (samples : list Frame) (wfmt : WaveFmt) (w : W)
    (wd : WaveData) (databits : list byte) :
  framesToData samples wfmt = Done (wd, databits) ->
  snd (WriteWaveToWriter samples wfmt w) <> Panic.
Proof.
  intros Hd. unfold WriteWaveToWriter. rewrite Hd.
  destruct (Write w (createHeader wd)) as [w1 [n1 [e1|]]]; [discriminate|].
  destruct (Write w1 (fmtToBytes wfmt)) as [w2 [n2 [e2|]]]; [discriminate|].
  destruct (Write w2 databits) as [w3 [n3 [e3|]]]; discriminate.
Qed.

(** On a buffer the three regions are appended one after the other. *)
Lemma WriteWaveToWriter_Buffer
    (samples : list Frame) (wfmt : WaveFmt) (b : Buffer)
    (wd : WaveData) (databits : list byte) :
  framesToData samples wfmt = Done (wd, databits) ->
  WriteWaveToWriter samples wfmt b =
    ({| contents :=
          contents b ++ createHeader wd ++ fmtToBytes wfmt ++ databits |},
     Done None).
Proof.
  intros Hd. unfold WriteWaveToWriter. rewrite Hd. cbn.
  now rewrite <- !app_assoc.
Qed.

(** The journal of a run, by the first [Write] that fails. *)
Lemma WriteWaveToWriter_journal {W : Type} `{Writer W}
    (samples : list Frame) (wfmt : WaveFmt) (w : W)
    (wd : WaveData) (databits : list byte) :
  framesToData samples wfmt = Done (wd, databits) ->
  let hdr := createHeader wd in
  let wfb := fmtToBytes wfmt in
  let run := WriteWaveToWriter samples wfmt (record w) in
  (exists n e,
      journal (fst run) = [call hdr n (Some e)] /\
      snd run = Done (Some e))
  \/ (exists n e,
      journal (fst run) =
        [call hdr (length hdr) None; call wfb n (Some e)] /\
      snd run = Done (Some e))
  \/ (exists n e,
      journal (fst run) =
        [call hdr (length hdr) None; call wfb (length wfb) None;
         call databits n (Some e)] /\
      snd run = Done (Some e))
  \/ (journal (fst run) =
        [call hdr (length hdr) None; call wfb (length wfb) None;
         call databits (length databits) None] /\
      snd run = Done None).
Proof.
  intros Hd hdr wfb run. subst run.
  unfold WriteWaveToWriter. rewrite Hd. fold hdr wfb.
  clearbody hdr wfb.
  cbn [Write Recorder_Writer record inner journal app].
  destruct (Write w hdr) as [w1 [n1 [e1|]]] eqn:E1; cbn.
  { left. exists n1, e1. split; reflexivity. }
  apply Write_contract in E1 as ->.
  destruct (Write w1 wfb) as [w2 [n2 [e2|]]] eqn:E2; cbn.
  { right; left. exists n2, e2. split; reflexivity. }
  apply Write_contract in E2 as ->.
  destruct (Write w2 databits) as [w3 [n3 [e3|]]] eqn:E3; cbn.
  { right; right; left. exists n3, e3. split; reflexivity. }
  apply Write_contract in E3 as ->.
  right; right; right. split; reflexivity.
Qed.

(** A run that returns [nil] asked for the whole file. *)
Lemma WriteWaveToWriter_requested {W : Type} `{Writer W}
    (samples : list Frame) (wfmt : WaveFmt) (w : W)
    (wd : WaveData) (databits : list byte) :
  framesToData samples wfmt = Done (wd, databits) ->
  snd (WriteWaveToWriter samples wfmt (record w)) = Done None ->
  requested (fst (WriteWaveToWriter samples wfmt (record w))) =
    createHeader wd ++ fmtToBytes wfmt ++ databits.
Proof.
  intros Hd Hnil.
  destruct (WriteWaveToWriter_journal samples wfmt w wd databits Hd)
    as [(n & e & _ & Hr) | [(n & e & _ & Hr) | [(n & e & _ & Hr) | [Hj _]]]];
    try (rewrite Hr in Hnil; discriminate).
  unfold requested. rewrite Hj. cbn. now rewrite app_nil_r.
Qed.

End Orchestration.

(** ** The whole file on a buffer *)

Section WholeFile.

Context {ext : Externals}.

(** The bytes of a file for [n] frames of a descriptor whose tag is
    [tag], with raw data [raw]. *)
Lemma WriteWaveToWriter_Buffer_layout
    (samples : list Frame) (wfmt : WaveFmt) (raw : list byte) :
  samplesToRawData samples wfmt = Done raw ->
  WriteWaveToWriter samples wfmt emptyBuffer =
    ({| contents :=
          ChunkID
          ++ LittleEndian.encode 4
               ((36 + subchunksize (length samples) wfmt) mod 2 ^ 32)
          ++ WaveID
          ++ fmtToBytes wfmt
          ++ Subchunk2ID
          ++ LittleEndian.encode 4
               (subchunksize (length samples) wfmt mod 2 ^ 32)
          ++ raw |},
     Done None).
Proof.
  intros Hraw.
  rewrite (WriteWaveToWriter_Buffer _ _ _ _ _ (framesToData_Done _ _ _ Hraw)).
  rewrite createHeader_layout. cbn [Subchunk2Size contents app].
  now rewrite <- !app_assoc.
Qed.

Lemma samplesToRawData_nil (wfmt : WaveFmt) :
  samplesToRawData [] wfmt = Done [].
Proof. reflexivity. Qed.

End WholeFile.

(** ** The fields of a written file *)

Section FileFields.

Context {ext : Externals}.

Lemma WriteWaveToWriter_nil_inv {W : Type} `{Writer W}
    (samples : list Frame) (wfmt : WaveFmt) (w : W) :
  snd (WriteWaveToWriter samples wfmt w) = Done None ->
  exists wd databits, framesToData samples wfmt = Done (wd, databits).
Proof.
  intros Hnil. destruct (framesToData samples wfmt) as [[wd databits]|] eqn:Hd.
  - now exists wd, databits.
  - rewrite (WriteWaveToWriter_Panic _ _ _ Hd) in Hnil. discriminate.
Qed.

(** Where each part of [header ++ format chunk ++ data chunk] is found,
    [t] being the length of the descriptor's tag. *)
Lemma file_fields
    (samples : list Frame) (wfmt : WaveFmt) (wd : WaveData) (databits : list byte) :
  framesToData samples wfmt = Done (wd, databits) ->
  let file := createHeader wd ++ fmtToBytes wfmt ++ databits in
  let t := length (Subchunk1ID wfmt) in
  length file = (40 + t + length (RawData wd))%nat /\
  field 0 4 file = ChunkID /\
  uint32_at 4 file = (36 + Subchunk2Size wd) mod 2 ^ 32 /\
  field 8 4 file = WaveID /\
  field 12 (t + 20) file = fmtToBytes wfmt /\
  field (32 + t) 4 file = Subchunk2ID /\
  uint32_at (36 + t) file = Subchunk2Size wd mod 2 ^ 32 /\
  skipn (40 + t) file = RawData wd.
Proof.
  intros Hd file t.
  destruct (framesToData_inv _ _ _ _ Hd) as (_ & Hsz & Hbits).
  rewrite <- Hsz in Hbits. subst file databits.
  pose proof (fmtToBytes_length wfmt) as Hlen. fold t in Hlen.
  set (size_field := LittleEndian.encode 4 (Subchunk2Size wd mod 2 ^ 32)).
  assert (Hsf : length size_field = 4%nat) by apply LittleEndianFacts.encode_length.
  split; [|split; [|split; [|split; [|split; [|split; [|split]]]]]].
  - rewrite !length_app, createHeader_length, Hlen, Hsf. cbn [length Subchunk2ID]. lia.
  - rewrite createHeader_layout. reflexivity.
  - unfold uint32_at. rewrite createHeader_layout.
    change (field 4 4 ?l) with (field (length ChunkID + 0) 4 l).
    rewrite <- !app_assoc, field_app_skip.
    rewrite field_here_n by apply LittleEndianFacts.encode_length.
    apply decode_field32.
  - rewrite createHeader_layout. reflexivity.
  - change 12%nat with (length (createHeader wd) + 0)%nat.
    rewrite field_app_skip. now apply field_here_n.
  - replace (32 + t)%nat
      with (length (createHeader wd) + (length (fmtToBytes wfmt) + 0))%nat
      by (rewrite createHeader_length, Hlen; lia).
    rewrite !field_app_skip. now apply field_here_n.
  - unfold uint32_at.
    replace (36 + t)%nat
      with (length (createHeader wd)
            + (length (fmtToBytes wfmt) + (length Subchunk2ID + 0)))%nat
      by (rewrite createHeader_length, Hlen; cbn [length Subchunk2ID]; lia).
    rewrite !field_app_skip. rewrite field_here_n by exact Hsf.
    apply decode_field32.
  - replace (40 + t)%nat
      with (length (createHeader wd)
            + (length (fmtToBytes wfmt)
               + (length Subchunk2ID + (length size_field + 0))))%nat
      by (rewrite createHeader_length, Hlen, Hsf; cbn [length Subchunk2ID]; lia).
    rewrite !skipn_app_skip. apply skipn_O.
Qed.

End FileFields.

(** ** The data size field against the payload *)

Section DataSize.

Context {ext : Externals}.

(** For one channel, and as long as the payload length fits 32 bits, the
    field after the [data] tag is the length of the payload. *)
Lemma data_size_matches_payload_mono
    (samples : list Frame) (wfmt : WaveFmt) (wd : WaveData) (databits : list byte) :
  BitsPerSample wfmt = 16 \/ BitsPerSample wfmt = 32 ->
  NumChannels wfmt = 1 ->
  Z.of_nat (length samples) * (BitsPerSample wfmt / 8) < 2 ^ 32 ->
  framesToData samples wfmt = Done (wd, databits) ->
  let file := createHeader wd ++ fmtToBytes wfmt ++ databits in
  let t := length (Subchunk1ID wfmt) in
  uint32_at (36 + t) file = Z.of_nat (length (skipn (40 + t) file)).
Proof.
  intros Hb Hc Hfit Hd file t.
  destruct (file_fields _ _ _ _ Hd) as (_ & _ & _ & _ & _ & _ & Hsize & Hraw).
  fold file t in Hsize, Hraw. rewrite Hsize, Hraw.
  destruct (framesToData_inv _ _ _ _ Hd) as (Hpack & Hsz & _).
  rewrite samplesToRawData_supported in Hpack by exact Hb.
  injection Hpack as Hpack. rewrite <- Hpack, concat_packed_length, Hsz.
  assert (Hk : exists k, BitsPerSample wfmt / 8 = k /\ BitsPerSample wfmt = k * 8 /\ 1 < k)
    by (destruct Hb as [Hb | Hb]; rewrite Hb; [exists 2 | exists 4]; repeat split; lia).
  destruct Hk as (k & Hk & Hk8 & Hk1).
  rewrite subchunksize_exact; [| exact Hb | lia |].
  - rewrite Hc, Hk in *. rewrite Z.mod_small by lia. lia.
  - rewrite Hc, Hk8. rewrite Hk in Hfit. unfold max_int. lia.
Qed.

(** In general the field holds the size computed from the descriptor,
    and the payload has one block per sample. *)
Lemma data_size_and_payload
    (samples : list Frame) (wfmt : WaveFmt) (wd : WaveData) (databits : list byte) :
  BitsPerSample wfmt = 16 \/ BitsPerSample wfmt = 32 ->
  framesToData samples wfmt = Done (wd, databits) ->
  let file := createHeader wd ++ fmtToBytes wfmt ++ databits in
  let t := length (Subchunk1ID wfmt) in
  uint32_at (36 + t) file = subchunksize (length samples) wfmt mod 2 ^ 32 /\
  length (skipn (40 + t) file)
    = (length samples * Z.to_nat (BitsPerSample wfmt / 8))%nat.
Proof.
  intros Hb Hd file t.
  destruct (file_fields _ _ _ _ Hd) as (_ & _ & _ & _ & _ & _ & Hsize & Hraw).
  fold file t in Hsize, Hraw. rewrite Hsize, Hraw.
  destruct (framesToData_inv _ _ _ _ Hd) as (Hpack & Hsz & _).
  rewrite samplesToRawData_supported in Hpack by exact Hb.
  injection Hpack as Hpack. rewrite <- Hpack, concat_packed_length, Hsz.
  split; reflexivity.
Qed.

End DataSize.

(** * The claims *)

(** ** PCM packing *)

(** Claim C4.  For a supported bit depth [b] (16 or 32) the packer returns;
    the buffer it returns is [N * (b / 8)] bytes long for [N] samples, and
    it is the concatenation, in input order and without padding, of one
    block of [b / 8] bytes per sample: the little-endian bytes of the low
    [b] bits of that sample's rescaled value.  The statement covers every
    sample sequence, hence every non-empty one. *)
Theorem samplesToRawData_packs {ext : Externals}
    (samples : list Frame) (props : WaveFmt) :
  BitsPerSample props = 16 \/ BitsPerSample props = 32 ->
  exists raw : list byte,
    samplesToRawData samples props = Done raw /\
    Z.of_nat (length raw)
      = Z.of_nat (length samples) * (BitsPerSample props / 8) /\
    raw = concat (map (packed (BitsPerSample props)) samples) /\
    forall (i : nat) (s : Frame),
      nth_error samples i = Some s ->
      let width := Z.to_nat (BitsPerSample props / 8) in
      length (field (i * width) width raw) = width /\
      LittleEndian.decode (field (i * width) width raw)
        = rescaleFrame s (BitsPerSample props) mod 2 ^ BitsPerSample props.
Proof.
  intros Hb. eexists. split; [now apply samplesToRawData_supported|].
  split; [|split; [reflexivity|]].
  - rewrite concat_packed_length. destruct Hb as [Hb | Hb]; rewrite Hb.
    + change (16 / 8) with 2. lia.
    + change (32 / 8) with 4. lia.
  - intros i s Hi width. subst width.
    rewrite (concat_packed_block _ _ _ _ Hi). split.
    + apply packed_length.
    + unfold packed. destruct Hb as [Hb | Hb]; rewrite Hb.
      * apply decode_field16.
      * apply decode_field32.
Qed.

Lemma samplesToRawData_packs_witness :
  exists raw : list byte,
    samplesToRawData (ext := amd64) [Float64.one; Float64.two] mono16 = Done raw /\
    Z.of_nat (length raw) = 2 * (16 / 8) /\
    raw = concat (map (packed (ext := amd64) 16) [Float64.one; Float64.two]) /\
    forall (i : nat) (s : Frame),
      nth_error [Float64.one; Float64.two] i = Some s ->
      let width := Z.to_nat (16 / 8) in
      length (field (i * width) width raw) = width /\
      LittleEndian.decode (field (i * width) width raw)
        = rescaleFrame (ext := amd64) s 16 mod 2 ^ 16.
Proof.
  apply (samplesToRawData_packs (ext := amd64) [Float64.one; Float64.two] mono16).
  left. reflexivity.
Defined.

(** ** Rescaling *)

(** Claim C6.  For a bit depth [b] of 16 or 32 whose table entry is the
    largest positive signed [b]-bit value, the rescaled integer of every
    sample [s] is the binary64 product of [s] by that value with its
    fraction discarded, that is rounded toward zero, whenever the product
    is a finite number that an [int] can hold.  Nothing is clamped: the
    sample 2.0 is rescaled to twice the largest value, and no sample
    makes the rescaler fail, since it is a total function. *)
Theorem rescaleFrame_truncated_product {ext : Externals} (b : Z) :
  b = 16 \/ b = 32 ->
  maxValues !! b = Some (2 ^ (b - 1) - 1) ->
  (forall s : Frame,
      let product := Float64.mul s (Float64.of_int (2 ^ (b - 1) - 1)) in
      Float64.is_finite product = true ->
      in_int (Z.quot (Float64.numerator product) (Float64.denominator product)) ->
      rescaleFrame s b
        = Z.quot (Float64.numerator product) (Float64.denominator product))
  /\ rescaleFrame Float64.two b = 2 * (2 ^ (b - 1) - 1)
  /\ 2 ^ (b - 1) - 1 < rescaleFrame Float64.two b.
Proof.
  intros Hb Hmax.
  assert (Hgen : forall s : Frame,
             rescaleFrame s b
             = Float64.to_int unrepresentable
                 (Float64.mul s (Float64.of_int (2 ^ (b - 1) - 1)))).
  { intros s. unfold rescaleFrame. now rewrite Hmax. }
  split; [|].
  - intros s product Hfin Hin. rewrite Hgen.
    now apply Float64Facts.to_int_representable.
  - rewrite Hgen. destruct Hb as [-> | ->]; vm_compute; split; reflexivity.
Qed.

Lemma rescaleFrame_truncated_product_witness :
  rescaleFrame (ext := amd64) Float64.one 16 = 32767
  /\ rescaleFrame (ext := amd64) Float64.two 16 = 65534.
Proof.
  destruct (rescaleFrame_truncated_product (ext := amd64) 16
              (or_introl eq_refl) eq_refl) as [Htrunc [Htwo _]].
  split.
  - rewrite (Htrunc Float64.one); [reflexivity | reflexivity |].
    vm_compute. split; discriminate.
  - exact Htwo.
Defined.

(** ** Scenarios *)

(** Claim C7.  One frame of value 1.0 with one channel and 16 bits per
    sample, for a descriptor with a 4-byte tag and a table whose 16-bit
    entry is 32767: the encoder returns [nil], the output is 46 bytes
    long, the data subchunk announces 2 bytes and its payload is the two
    bytes [FF 7F], the little-endian encoding of 32767. *)
Theorem single_mono16_full_scale_frame {ext : Externals} (wfmt : WaveFmt) :
  maxValues !! 16 = Some 32767 ->
  NumChannels wfmt = 1 ->
  BitsPerSample wfmt = 16 ->
  length (Subchunk1ID wfmt) = 4%nat ->
  exists out : list byte,
    WriteWaveToWriter [Float64.one] wfmt emptyBuffer
      = ({| contents := out |}, Done None) /\
    length out = 46%nat /\
    field 36 4 out = Subchunk2ID /\
    uint32_at 40 out = 2 /\
    skipn 44 out = [xff; x7f] /\
    skipn 44 out = LittleEndian.encode 2 32767 /\
    LittleEndian.decode (skipn 44 out) = 2 ^ 15 - 1.
Proof.
  intros Hmax Hc Hb Htag.
  pose proof (samplesToRawData_supported [Float64.one] wfmt (or_introl Hb)) as Hraw.
  cbn [map concat] in Hraw. rewrite Hb in Hraw. unfold packed in Hraw.
  rewrite (rescaleFrame_one_16 Hmax), app_nil_r in Hraw.
  change (LittleEndian.encode (Z.to_nat (16 / 8)) (32767 mod 2 ^ 16))
    with [xff; x7f] in Hraw.
  eexists. split; [apply (WriteWaveToWriter_Buffer_layout _ _ _ Hraw)|].
  assert (Hsz : subchunksize 1 wfmt = 2)
    by (unfold subchunksize; rewrite Hc, Hb; reflexivity).
  cbn [length]. rewrite Hsz, fmtToBytes_layout.
  destruct (Subchunk1ID wfmt) as [|t0 [|t1 [|t2 [|t3 [|t4 tag]]]]];
    try discriminate.
  repeat split; reflexivity.
Qed.

Lemma single_mono16_full_scale_frame_witness :
  exists out : list byte,
    WriteWaveToWriter (ext := amd64) [Float64.one] mono16 emptyBuffer
      = ({| contents := out |}, Done None) /\
    length out = 46%nat /\
    field 36 4 out = Subchunk2ID /\
    uint32_at 40 out = 2 /\
    skipn 44 out = [xff; x7f] /\
    skipn 44 out = LittleEndian.encode 2 32767 /\
    LittleEndian.decode (skipn 44 out) = 2 ^ 15 - 1.
Proof.
  apply (single_mono16_full_scale_frame (ext := amd64) mono16); reflexivity.
Defined.

(** Claim C10.  For an empty sample sequence and a descriptor with a
    4-byte tag, whatever its bits per sample: no writer sees a panic, and
    on a buffer the encoder returns [nil] after writing a complete 44-byte
    container, the RIFF tag, a chunk size of 36, the WAVE tag, the 24-byte
    format chunk, the data tag and a data size of 0 with nothing after
    it. *)
Theorem empty_input_any_depth {ext : Externals} (wfmt : WaveFmt) :
  length (Subchunk1ID wfmt) = 4%nat ->
  (forall (W : Type) (HW : Writer W) (w : W),
      snd (WriteWaveToWriter [] wfmt w) <> Panic) /\
  exists out : list byte,
    WriteWaveToWriter [] wfmt emptyBuffer = ({| contents := out |}, Done None) /\
    length out = 44%nat /\
    field 0 4 out = ChunkID /\
    uint32_at 4 out = 36 /\
    field 8 4 out = WaveID /\
    field 12 24 out = fmtToBytes wfmt /\
    field 36 4 out = Subchunk2ID /\
    uint32_at 40 out = 0 /\
    skipn 44 out = [].
Proof.
  intros Htag. split.
  - intros W HW w.
    eapply WriteWaveToWriter_no_Panic.
    apply framesToData_Done, samplesToRawData_nil.
  - eexists.
    split; [apply (WriteWaveToWriter_Buffer_layout _ _ _ (samplesToRawData_nil wfmt))|].
    cbn [length]. rewrite subchunksize_0.
    pose proof (fmtToBytes_length wfmt) as Hlen. rewrite Htag in Hlen.
    destruct (fmtToBytes wfmt)
      as [|f0 [|f1 [|f2 [|f3 [|f4 [|f5 [|f6 [|f7 [|f8 [|f9 [|f10 [|f11
         [|f12 [|f13 [|f14 [|f15 [|f16 [|f17 [|f18 [|f19 [|f20 [|f21
         [|f22 [|f23 [|f24 rest]]]]]]]]]]]]]]]]]]]]]]]]];
      try discriminate.
    repeat split; reflexivity.
Qed.

Lemma empty_input_any_depth_witness :
  snd (WriteWaveToWriter (ext := amd64) [] mono8 emptyBuffer) = Done None /\
  length (contents (fst (WriteWaveToWriter (ext := amd64) [] mono8 emptyBuffer)))
    = 44%nat.
Proof.
  destruct (empty_input_any_depth (ext := amd64) mono8 eq_refl)
    as [_ (out & Hrun & Hlen & _)].
  rewrite Hrun. cbn [fst snd contents]. split; [reflexivity | exact Hlen].
Defined.

(** ** Unsupported bit depths *)

(** Claim C2, as stated, fails.  With 8 bits per sample, a depth outside
    16 and 32, and no sample at all, the encoder returns [nil] and the
    buffer holds 44 bytes: there is neither a failure nor an untouched
    sink. *)
Lemma unsupported_depth_empty_input_succeeds :
  BitsPerSample mono8 <> 16 /\
  BitsPerSample mono8 <> 32 /\
  snd (WriteWaveToWriter (ext := amd64) [] mono8 emptyBuffer) = Done None /\
  length (contents (fst (WriteWaveToWriter (ext := amd64) [] mono8 emptyBuffer)))
    = 44%nat.
Proof. repeat split; (discriminate || reflexivity). Qed.

(** Claim C2, amended.  For every non-empty sample sequence and every
    descriptor whose bits per sample are neither 16 nor 32, the encoder
    panics on the first sample, before the first [Write]: whatever the
    writer, it is handed back as it was, and a recording writer has
    recorded no call. *)
Theorem unsupported_depth_panics_before_writing {ext : Externals}
    {W : Type} `{Writer W}
    (samples : list Frame) (wfmt : WaveFmt) (w : W) :
  samples <> [] ->
  BitsPerSample wfmt <> 16 ->
  BitsPerSample wfmt <> 32 ->
  WriteWaveToWriter samples wfmt w = (w, Panic) /\
  journal (fst (WriteWaveToWriter samples wfmt (record w))) = [].
Proof.
  intros Hne H16 H32.
  destruct samples as [|s rest]; [congruence|].
  assert (Hd : framesToData (s :: rest) wfmt = Panic).
  { apply framesToData_Panic. unfold samplesToRawData.
    now apply samplesToRawData_loop_unsupported. }
  split.
  - now apply WriteWaveToWriter_Panic.
  - now rewrite (WriteWaveToWriter_Panic _ _ (record w) Hd).
Qed.

Lemma unsupported_depth_panics_before_writing_witness :
  WriteWaveToWriter (ext := amd64) [Float64.one] mono8 emptyBuffer
    = (emptyBuffer, Panic) /\
  journal (fst (WriteWaveToWriter (ext := amd64) [Float64.one] mono8
                  (record emptyBuffer))) = [].
Proof.
  apply (unsupported_depth_panics_before_writing (ext := amd64)
           [Float64.one] mono8 emptyBuffer);
    [discriminate | vm_compute; discriminate | vm_compute; discriminate].
Defined.

(** ** The data subchunk size *)

(** Claim C1 at a stereo input.  One sample with two channels and 16 bits
    per sample: the field after the [data] tag reads 4, and 2 bytes of
    payload follow it. *)
Theorem stereo_data_size_exceeds_payload :
  let out :=
    contents (fst (WriteWaveToWriter (ext := amd64) [Float64.zero] stereo16
                     emptyBuffer)) in
  snd (WriteWaveToWriter (ext := amd64) [Float64.zero] stereo16 emptyBuffer)
    = Done None /\
  field 36 4 out = Subchunk2ID /\
  uint32_at 40 out = 4 /\
  length (skipn 44 out) = 2%nat.
Proof. vm_compute. repeat split; reflexivity. Qed.

(** ** Total length and the RIFF chunk size *)

(** Claim C3, as stated, fails in its last part.  With two channels and
    no sample the run succeeds and the output is 44 bytes long, which is 8
    plus the RIFF chunk size of 36.  With [2^32 + 1] channels and one
    16-bit sample the size computed for the data wraps in the 32-bit
    field, and the 46 bytes written are again 8 plus the stored value. *)
Lemma channels_total_equals_riff_size_plus_8 :
  (1 < NumChannels stereo16 /\
   let run := WriteWaveToWriter (ext := amd64) [] stereo16 (record emptyBuffer) in
   snd run = Done None /\
   Z.of_nat (length (requested (fst run)))
     = 8 + uint32_at 4 (requested (fst run)))
  /\
  (1 < NumChannels (pcm (2 ^ 32 + 1) 16) /\
   let run := WriteWaveToWriter (ext := amd64) [Float64.zero]
                (pcm (2 ^ 32 + 1) 16) (record emptyBuffer) in
   snd run = Done None /\
   Z.of_nat (length (requested (fst run)))
     = 8 + uint32_at 4 (requested (fst run))).
Proof. vm_compute. repeat split; reflexivity. Qed.

(** Claim C3, amended.  For [N] samples, a bit depth of 16 or 32 and a
    4-byte tag, a run that returns [nil] has asked the writer for exactly
    [44 + N * (bits / 8)] bytes, whatever the number of channels.  When
    moreover there is at least one sample, more than one channel, and
    [36 + N * channels * (bits / 8)] fits the 32-bit field, the RIFF chunk
    size holds that number, so the total length is less than 8 plus the
    stored value. *)
Theorem total_length_ignores_channels {ext : Externals}
    {W : Type} `{Writer W}
    (samples : list Frame) (wfmt : WaveFmt) (w : W) :
  BitsPerSample wfmt = 16 \/ BitsPerSample wfmt = 32 ->
  length (Subchunk1ID wfmt) = 4%nat ->
  snd (WriteWaveToWriter samples wfmt (record w)) = Done None ->
  let out := requested (fst (WriteWaveToWriter samples wfmt (record w))) in
  let N := Z.of_nat (length samples) in
  Z.of_nat (length out) = 44 + N * (BitsPerSample wfmt / 8) /\
  (1 <= N ->
   1 < NumChannels wfmt ->
   36 + N * NumChannels wfmt * (BitsPerSample wfmt / 8) < 2 ^ 32 ->
   uint32_at 4 out = 36 + N * NumChannels wfmt * (BitsPerSample wfmt / 8) /\
   Z.of_nat (length out) < 8 + uint32_at 4 out /\
   Z.of_nat (length out) <> 8 + uint32_at 4 out).
Proof.
  intros Hb Htag Hnil out N.
  destruct (WriteWaveToWriter_nil_inv _ _ _ Hnil) as (wd & databits & Hd).
  subst out. rewrite (WriteWaveToWriter_requested _ _ _ _ _ Hd Hnil).
  destruct (file_fields _ _ _ _ Hd) as (Hlen & _ & Hriff & _).
  destruct (framesToData_inv _ _ _ _ Hd) as (Hraw & Hsz & _).
  rewrite samplesToRawData_supported in Hraw by exact Hb.
  injection Hraw as Hraw.
  assert (Hk : exists k, BitsPerSample wfmt / 8 = k /\ BitsPerSample wfmt = k * 8 /\ 1 < k)
    by (destruct Hb as [Hb | Hb]; rewrite Hb; [exists 2 | exists 4]; repeat split; lia).
  destruct Hk as (k & Hk & Hk8 & Hk1).
  assert (Htotal : Z.of_nat (length (createHeader wd ++ fmtToBytes wfmt ++ databits))
                   = 44 + N * (BitsPerSample wfmt / 8)).
  { rewrite Hlen, Htag, <- Hraw, concat_packed_length, Hk. subst N. lia. }
  split; [exact Htotal|].
  intros HN Hc Hfit. rewrite Htotal, Hriff, Hsz.
  rewrite subchunksize_exact; [| exact Hb | lia |].
  - fold N. rewrite Hk in *. rewrite Z.mod_small by nia. nia.
  - fold N. rewrite Hk in Hfit. rewrite Hk8. unfold max_int. nia.
Qed.

Lemma total_length_ignores_channels_witness :
  let out := requested (fst (WriteWaveToWriter (ext := amd64)
                               [Float64.one; Float64.zero] stereo16
                               (record emptyBuffer))) in
  Z.of_nat (length out) = 44 + 2 * (16 / 8) /\
  uint32_at 4 out = 36 + 2 * 2 * (16 / 8) /\
  Z.of_nat (length out) <> 8 + uint32_at 4 out.
Proof.
  destruct (total_length_ignores_channels (ext := amd64)
              [Float64.one; Float64.zero] stereo16 emptyBuffer)
    as [Hlen Hriff];
    [left; reflexivity | reflexivity | vm_compute; reflexivity |].
  destruct Hriff as (Hfield & _ & Hne);
    [vm_compute; discriminate | reflexivity | reflexivity |].
  repeat split; assumption.
Defined.

(** Claim C5, as stated, fails where the size no longer fits 32 bits.
    With [2^31 - 2] channels and one 16-bit sample the size computed for
    the data is [2^32 - 4]; the data size field reads [2^32 - 4] and the
    RIFF chunk size reads 32, which is not 36 more. *)
Lemma riff_size_wraps_around :
  let run := WriteWaveToWriter (ext := amd64) [Float64.zero]
               (pcm (2 ^ 31 - 2) 16) emptyBuffer in
  let out := contents (fst run) in
  snd run = Done None /\
  field 0 4 out = ChunkID /\
  uint32_at 40 out = 2 ^ 32 - 4 /\
  uint32_at 4 out = 32 /\
  uint32_at 4 out <> 36 + uint32_at 40 out.
Proof. vm_compute. repeat split; (reflexivity || discriminate). Qed.

(** Claim C5, amended.  Every file of a run that returns [nil] starts with
    the tag RIFF, a 4-byte little-endian field and the tag WAVE, in this
    order; the field holds 36 plus the value of the data size field,
    reduced modulo [2^32], hence exactly 36 plus that value whenever the
    sum is below [2^32]. *)
Theorem riff_chunk_size_field {ext : Externals}
    {W : Type} `{Writer W}
    (samples : list Frame) (wfmt : WaveFmt) (w : W) :
  snd (WriteWaveToWriter samples wfmt (record w)) = Done None ->
  let out := requested (fst (WriteWaveToWriter samples wfmt (record w))) in
  let data_size := uint32_at (36 + length (Subchunk1ID wfmt)) out in
  field 0 4 out = ChunkID /\
  length (field 4 4 out) = 4%nat /\
  field 8 4 out = WaveID /\
  field (32 + length (Subchunk1ID wfmt)) 4 out = Subchunk2ID /\
  uint32_at 4 out = (36 + data_size) mod 2 ^ 32 /\
  (36 + data_size < 2 ^ 32 -> uint32_at 4 out = 36 + data_size).
Proof.
  intros Hnil out data_size.
  destruct (WriteWaveToWriter_nil_inv _ _ _ Hnil) as (wd & databits & Hd).
  subst data_size out. rewrite (WriteWaveToWriter_requested _ _ _ _ _ Hd Hnil).
  destruct (file_fields _ _ _ _ Hd)
    as (Hlen & Hriff & Hsize & Hwave & _ & Hdata & Hdsize & _).
  assert (Hmod : uint32_at 4 (createHeader wd ++ fmtToBytes wfmt ++ databits)
                 = (36 + uint32_at (36 + length (Subchunk1ID wfmt))
                           (createHeader wd ++ fmtToBytes wfmt ++ databits))
                   mod 2 ^ 32).
  { rewrite Hsize, Hdsize. now rewrite Z.add_mod_idemp_r by lia. }
  split; [exact Hriff|]. split; [|split; [exact Hwave|]].
  { rewrite createHeader_layout. reflexivity. }
  split; [exact Hdata|]. split; [exact Hmod|].
  intros Hfit. rewrite Hmod. apply Z.mod_small.
  rewrite Hdsize in *.
  pose proof (Z.mod_pos_bound (Subchunk2Size wd) (2 ^ 32) ltac:(lia)). lia.
Qed.

Lemma riff_chunk_size_field_witness :
  let out := requested (fst (WriteWaveToWriter (ext := amd64)
                               [Float64.one] mono16 (record emptyBuffer))) in
  field 0 4 out = ChunkID /\
  field 8 4 out = WaveID /\
  uint32_at 4 out = 36 + uint32_at 40 out.
Proof.
  destruct (riff_chunk_size_field (ext := amd64) [Float64.one] mono16
              emptyBuffer)
    as (Hriff & _ & Hwave & _ & _ & Hexact);
    [vm_compute; reflexivity |].
  cbv zeta. split; [exact Hriff | split; [exact Hwave |]].
  apply Hexact. vm_compute. reflexivity.
Defined.

(** ** The format chunk *)

(** Claim C8, as stated, fails.  For a descriptor whose tag is LIST and
    whose channel count is 65537, the chunk does not start with the tag
    [fmt ], and its channel field reads 1. *)
Lemma format_chunk_echoes_tag_and_truncates :
  field 0 4 (fmtToBytes oddFmt) <> Format /\
  field 0 4 (fmtToBytes oddFmt) = Subchunk1ID oddFmt /\
  NumChannels oddFmt = 65537 /\
  uint16_at 10 (fmtToBytes oddFmt) = 1.
Proof. vm_compute. repeat split; (discriminate || reflexivity). Qed.

(** Claim C8, amended.  For every descriptor the format chunk is the
    descriptor's own tag bytes followed by 20 bytes: subchunk1Size on 4
    bytes, then audioFormat (2), numChannels (2), sampleRate (4),
    byteRate (4), blockAlign (2) and bitsPerSample (2), in this order and
    little-endian, each holding the descriptor's value reduced to the
    width of its field and nothing recomputed. *)
Theorem fmtToBytes_fields (wfmt : WaveFmt) :
  let chunk := fmtToBytes wfmt in
  let t := length (Subchunk1ID wfmt) in
  length chunk = (t + 20)%nat /\
  field 0 t chunk = Subchunk1ID wfmt /\
  uint32_at t chunk = Subchunk1Size wfmt mod 2 ^ 32 /\
  uint16_at (t + 4) chunk = AudioFormat wfmt mod 2 ^ 16 /\
  uint16_at (t + 6) chunk = NumChannels wfmt mod 2 ^ 16 /\
  uint32_at (t + 8) chunk = SampleRate wfmt mod 2 ^ 32 /\
  uint32_at (t + 12) chunk = ByteRate wfmt mod 2 ^ 32 /\
  uint16_at (t + 16) chunk = BlockAlign wfmt mod 2 ^ 16 /\
  uint16_at (t + 18) chunk = BitsPerSample wfmt mod 2 ^ 16.
Proof.
  intros chunk t. subst chunk.
  split; [apply fmtToBytes_length|].
  rewrite fmtToBytes_layout.
  split; [apply field_here|].
  unfold uint32_at, uint16_at. subst t.
  rewrite field_app_skip0, !field_app_skip.
  explode_field (LittleEndian.encode 4 (Subchunk1Size wfmt mod 2 ^ 32)).
  explode_field (LittleEndian.encode 2 (AudioFormat wfmt mod 2 ^ 16)).
  explode_field (LittleEndian.encode 2 (NumChannels wfmt mod 2 ^ 16)).
  explode_field (LittleEndian.encode 4 (SampleRate wfmt mod 2 ^ 32)).
  explode_field (LittleEndian.encode 4 (ByteRate wfmt mod 2 ^ 32)).
  explode_field (LittleEndian.encode 2 (BlockAlign wfmt mod 2 ^ 16)).
  explode_field (LittleEndian.encode 2 (BitsPerSample wfmt mod 2 ^ 16)).
  repeat split; assumption.
Qed.

(** ** The order of the writes *)

(** Claim C9.  Once the three regions are built, the encoder calls
    [Write] between one and three times, with the RIFF header, the format
    chunk and the data chunk in this order.  Every call but the last one
    returned a [nil] error with the full length of its payload; the
    encoder returns what the last call returned; and when fewer than three
    calls were made the last one failed, so that nothing is written after
    a failure and the failure is what the caller gets. *)
Theorem writes_in_order_until_first_failure {ext : Externals}
    {W : Type} `{Writer W}
    (samples : list Frame) (wfmt : WaveFmt) (w : W)
    (wd : WaveData) (databits : list byte) :
  framesToData samples wfmt = Done (wd, databits) ->
  let run := WriteWaveToWriter samples wfmt (record w) in
  let regions := [createHeader wd; fmtToBytes wfmt; databits] in
  exists (k : nat) (last : Call),
    (1 <= k <= 3)%nat /\
    map payload (journal (fst run)) = firstn k regions /\
    (forall (i : nat) (c : Call),
        (i < k - 1)%nat ->
        nth_error (journal (fst run)) i = Some c ->
        ret_err c = None /\ ret_n c = length (payload c)) /\
    nth_error (journal (fst run)) (k - 1) = Some last /\
    snd run = Done (ret_err last) /\
    ((k < 3)%nat -> ret_err last <> None) /\
    (ret_err last = None -> ret_n last = length (payload last)).
Proof.
  intros Hd run regions.
  destruct (WriteWaveToWriter_journal samples wfmt w wd databits Hd)
    as [(n & e & Hj & Hr) | [(n & e & Hj & Hr) | [(n & e & Hj & Hr) | [Hj Hr]]]];
    fold run in Hj, Hr; rewrite Hj, Hr.
  - exists 1%nat, (call (createHeader wd) n (Some e)).
    split; [lia|]. split; [reflexivity|].
    split; [intros i c Hi; lia|].
    split; [reflexivity|]. split; [reflexivity|].
    split; [discriminate | discriminate].
  - exists 2%nat, (call (fmtToBytes wfmt) n (Some e)).
    split; [lia|]. split; [reflexivity|].
    split; [intros i c Hi Hc; destruct i as [|i]; [|lia];
            injection Hc as <-; split; reflexivity|].
    split; [reflexivity|]. split; [reflexivity|].
    split; [discriminate | discriminate].
  - exists 3%nat, (call databits n (Some e)).
    split; [lia|]. split; [reflexivity|].
    split; [intros i c Hi Hc; destruct i as [|[|i]]; [| |lia];
            injection Hc as <-; split; reflexivity|].
    split; [reflexivity|]. split; [reflexivity|].
    split; [discriminate | discriminate].
  - exists 3%nat, (call databits (length databits) None).
    split; [lia|]. split; [reflexivity|].
    split; [intros i c Hi Hc; destruct i as [|[|i]]; [| |lia];
            injection Hc as <-; split; reflexivity|].
    split; [reflexivity|]. split; [reflexivity|].
    split; [lia | reflexivity].
Qed.

Lemma writes_in_order_until_first_failure_witness :
  let full := {| stored := []; free := 20 |} in
  let run := WriteWaveToWriter (ext := amd64) [Float64.one] mono16 (record full) in
  exists (k : nat) (last : Call),
    (1 <= k <= 3)%nat /\
    map payload (journal (fst run))
      = firstn k [createHeader
                    {| wd_Subchunk2ID := Subchunk2ID; Subchunk2Size := 2;
                       RawData := [xff; x7f]; Frames := [Float64.one] |};
                  fmtToBytes mono16;
                  Subchunk2ID ++ [x02; x00; x00; x00] ++ [xff; x7f]] /\
    snd run = Done (ret_err last) /\
    ((k < 3)%nat -> ret_err last <> None).
Proof.
  intros full run.
  destruct (writes_in_order_until_first_failure (ext := amd64)
              [Float64.one] mono16 full
              {| wd_Subchunk2ID := Subchunk2ID; Subchunk2Size := 2;
                 RawData := [xff; x7f]; Frames := [Float64.one] |}
              (Subchunk2ID ++ [x02; x00; x00; x00] ++ [xff; x7f]))
    as (k & last & Hk & Hpay & _ & _ & Hret & Hfail & _);
    [vm_compute; reflexivity |].
  exists k, last. repeat split; try assumption; apply Hk.
Defined.

(** * Further properties of the writer *)

(** ** The integer appenders *)

Lemma decode_signed_encode (n : nat) (i : Z) :
  (0 < n)%nat ->
  - 2 ^ (8 * Z.of_nat n - 1) <= i < 2 ^ (8 * Z.of_nat n - 1) ->
  decode_signed (LittleEndian.encode n (i mod 2 ^ (8 * Z.of_nat n))) = i.
Proof.
  intros Hn Hi. unfold decode_signed.
  rewrite LittleEndianFacts.decode_encode, LittleEndianFacts.encode_length.
  assert (Hpow : 256 ^ Z.of_nat n = 2 ^ (8 * Z.of_nat n))
    by (change 256 with (2 ^ 8); rewrite <- Z.pow_mul_r by lia; reflexivity).
  rewrite Hpow, Z.mod_mod by (apply Z.pow_nonzero; lia).
  set (w := 8 * Z.of_nat n) in *.
  assert (Hw : 2 ^ w = 2 * 2 ^ (w - 1)).
  { replace w with (Z.succ (w - 1)) at 1 by lia. apply Z.pow_succ_r. lia. }
  assert (Hpos : 0 < 2 ^ (w - 1)) by (apply Z.pow_pos_nonneg; lia).
  destruct (Z.neg_nonneg_cases i) as [Hneg | Hnonneg].
  - assert (Hm : i mod 2 ^ w = i + 2 ^ w).
    { symmetry. apply (Z.mod_unique _ _ (-1)); lia. }
    rewrite Hm. destruct (Z.ltb_spec (i + 2 ^ w) (2 ^ (w - 1))); lia.
  - rewrite Z.mod_small by lia.
    destruct (Z.ltb_spec i (2 ^ (w - 1))); lia.
Qed.

(** X1.  [appendInt16] keeps the buffer and adds two bytes; for an
    integer in the signed 16-bit range, reading them back as a
    little-endian two's complement number gives the integer. *)
Theorem appendInt16_signed_round_trip (b : list byte) (i : Z) :
  - 2 ^ 15 <= i < 2 ^ 15 ->
  exists bs : list byte,
    appendInt16 b i = b ++ bs /\
    length bs = 2%nat /\
    decode_signed bs = i.
Proof.
  intros Hi. exists (LittleEndian.encode 2 (i mod 2 ^ 16)).
  split; [apply appendInt16_encode|]. split; [reflexivity|].
  apply (decode_signed_encode 2 i); [lia | exact Hi].
Qed.

Lemma appendInt16_signed_round_trip_witness :
  exists bs : list byte,
    appendInt16 [x52] (-32768) = [x52] ++ bs /\
    length bs = 2%nat /\
    decode_signed bs = -32768.
Proof. apply (appendInt16_signed_round_trip [x52] (-32768)). lia. Defined.

(** X2.  [appendInt32] keeps the buffer and adds four bytes; for an
    integer in the signed 32-bit range, reading them back as a
    little-endian two's complement number gives the integer. *)
Theorem appendInt32_signed_round_trip (b : list byte) (i : Z) :
  - 2 ^ 31 <= i < 2 ^ 31 ->
  exists bs : list byte,
    appendInt32 b i = b ++ bs /\
    length bs = 4%nat /\
    decode_signed bs = i.
Proof.
  intros Hi. exists (LittleEndian.encode 4 (i mod 2 ^ 32)).
  split; [apply appendInt32_encode|]. split; [reflexivity|].
  apply (decode_signed_encode 4 i); [lia | exact Hi].
Qed.

Lemma appendInt32_signed_round_trip_witness :
  exists bs : list byte,
    appendInt32 [] (-1) = [] ++ bs /\
    length bs = 4%nat /\
    decode_signed bs = -1.
Proof. apply (appendInt32_signed_round_trip [] (-1)). lia. Defined.

(** X3.  Two integers are appended as the same bytes exactly when they
    agree modulo [2^16] for [appendInt16] and modulo [2^32] for
    [appendInt32]: values outside the width wrap around, and nothing
    else is lost. *)
Theorem appendInt_same_bytes_iff_congruent (b : list byte) (i j : Z) :
  (appendInt16 b i = appendInt16 b j <-> i mod 2 ^ 16 = j mod 2 ^ 16) /\
  (appendInt32 b i = appendInt32 b j <-> i mod 2 ^ 32 = j mod 2 ^ 32).
Proof.
  split; split.
  - rewrite !appendInt16_encode. intros Heq. apply app_inv_head in Heq.
    rewrite <- (decode_field16 i), <- (decode_field16 j). now rewrite Heq.
  - intros Heq. rewrite !appendInt16_encode. now rewrite Heq.
  - rewrite !appendInt32_encode. intros Heq. apply app_inv_head in Heq.
    rewrite <- (decode_field32 i), <- (decode_field32 j). now rewrite Heq.
  - intros Heq. rewrite !appendInt32_encode. now rewrite Heq.
Qed.

(** ** The rescaler *)

Module Float64More.
Import Float64.

Lemma binary_round_aux_opp (sx : bool) (mx ex : Z) (lx : location) :
  binary_round_aux prec emax (negb sx) mx ex lx
  = SFopp (binary_round_aux prec emax sx mx ex lx).
Proof.
  unfold binary_round_aux.
  destruct (shr_fexp prec emax mx ex lx) as [mrs' e'].
  destruct (shr_fexp prec emax _ e' loc_Exact) as [mrs'' e''].
  destruct (shr_m mrs'') as [|m|m]; cbn [SFopp]; try reflexivity.
  destruct (e'' <=? emax - prec); reflexivity.
Qed.

Lemma mul_opp_l (x y : float64) : mul (SFopp x) y = SFopp (mul x y).
Proof.
  unfold mul.
  destruct x as [sx | sx | | sx mx ex], y as [sy | sy | | sy my ey];
    cbn [SFmul SFopp]; try reflexivity;
    try (now destruct sx, sy).
  rewrite <- binary_round_aux_opp. now destruct sx, sy.
Qed.

Lemma truncate_opp (f : float64) :
  truncate (SFopp f) = option_map Z.opp (truncate f).
Proof.
  destruct f as [s | s | | s m e]; cbn [SFopp truncate option_map]; try reflexivity.
  destruct e as [|p|p]; cbn [option_map]; f_equal; destruct s; cbn [negb cond_Zopp]; lia.
Qed.

Lemma mul_zero_r (x : float64) (s : bool) :
  is_finite x = true -> exists s', mul x (S754_zero s) = S754_zero s'.
Proof.
  destruct x as [sx | sx | | sx mx ex]; cbn [is_finite]; try discriminate;
    intros _; eexists; reflexivity.
Qed.

End Float64More.

(** X4.  For a width that has no entry in [maxValues] the multiplier is
    the zero value of the map: every finite sample is rescaled to 0. *)
Theorem rescaleFrame_absent_width {ext : Externals} (s : Frame) (bits : Z) :
  maxValues !! bits = None ->
  Float64.is_finite s = true ->
  rescaleFrame s bits = 0.
Proof.
  intros Hnone Hfin. unfold rescaleFrame. rewrite Hnone. cbn [default].
  change (Float64.of_int 0) with (S754_zero false).
  destruct (Float64More.mul_zero_r s false Hfin) as [s' Hs']. rewrite Hs'.
  reflexivity.
Qed.

Lemma rescaleFrame_absent_width_witness :
  rescaleFrame (ext := amd64) Float64.one 8 = 0.
Proof.
  apply (rescaleFrame_absent_width (ext := amd64) Float64.one 8); reflexivity.
Defined.

(** X5.  Rescaling is odd: when the rescaled value of a sample is a
    finite product whose integer part lies between [-max_int] and
    [max_int], the opposite sample is rescaled to the opposite integer.
    In particular a negative full-scale sample never reaches the most
    negative value of the width. *)
Theorem rescaleFrame_opposite {ext : Externals} (s : Frame) (bits : Z) :
  let product :=
    Float64.mul s (Float64.of_int (default 0 (maxValues !! bits))) in
  Float64.is_finite product = true ->
  - max_int <= Z.quot (Float64.numerator product) (Float64.denominator product)
            <= max_int ->
  rescaleFrame (Float64_neg s) bits = - rescaleFrame s bits.
Proof.
  intros product Hfin Hrange. unfold rescaleFrame, Float64_neg.
  fold product. rewrite Float64More.mul_opp_l. fold product.
  unfold Float64.to_int. rewrite Float64More.truncate_opp.
  rewrite (Float64Facts.truncate_quot product Hfin). cbn [option_map].
  set (q := Z.quot (Float64.numerator product) (Float64.denominator product)) in *.
  unfold max_int, min_int in *.
  assert (H1 : (- 2 ^ 63 <=? - q) && (- q <=? 2 ^ 63 - 1) = true)
    by (apply andb_true_intro; split; apply Z.leb_le; lia).
  assert (H2 : (- 2 ^ 63 <=? q) && (q <=? 2 ^ 63 - 1) = true)
    by (apply andb_true_intro; split; apply Z.leb_le; lia).
  now rewrite H1, H2.
Qed.

Lemma rescaleFrame_opposite_witness :
  rescaleFrame (ext := amd64) (Float64_neg Float64.one) 16
  = - rescaleFrame (ext := amd64) Float64.one 16.
Proof.
  apply (rescaleFrame_opposite (ext := amd64) Float64.one 16).
  - reflexivity.
  - vm_compute. split; discriminate.
Defined.

(** ** The packer *)

Lemma supported_dec (bits : Z) :
  {bits = 16 \/ bits = 32} + {bits <> 16 /\ bits <> 32}.
Proof.
  destruct (Z.eq_dec bits 16) as [-> | H16]; [left; now left|].
  destruct (Z.eq_dec bits 32) as [-> | H32]; [left; now right|].
  right. now split.
Qed.

(** X6.  [samplesToRawData] panics exactly when there is at least one
    sample and the bit depth is neither 16 nor 32; in every other case
    it returns, and so does [framesToData]. *)
Theorem samplesToRawData_panics_iff {ext : Externals}
    (samples : list Frame) (props : WaveFmt) :
  (samplesToRawData samples props = Panic <->
   samples <> [] /\ BitsPerSample props <> 16 /\ BitsPerSample props <> 32) /\
  (framesToData samples props = Panic <->
   samplesToRawData samples props = Panic).
Proof.
  split.
  - split.
    + intros Hp. destruct samples as [|s rest]; [discriminate|].
      split; [discriminate|].
      destruct (supported_dec (BitsPerSample props)) as [Hb | Hb]; [|exact Hb].
      rewrite samplesToRawData_supported in Hp by exact Hb. discriminate.
    + intros (Hne & H16 & H32). destruct samples as [|s rest]; [congruence|].
      now apply samplesToRawData_loop_unsupported.
  - split.
    + intros Hp. destruct (samplesToRawData samples props) as [raw|] eqn:Hraw;
        [|reflexivity].
      rewrite (framesToData_Done _ _ _ Hraw) in Hp. discriminate.
    + apply framesToData_Panic.
Qed.

(** X7.  For a supported bit depth, packing a concatenation is the
    concatenation of the packings: the raw data of a sequence can be
    produced piece by piece. *)
Theorem samplesToRawData_app {ext : Externals}
    (xs ys : list Frame) (props : WaveFmt) :
  BitsPerSample props = 16 \/ BitsPerSample props = 32 ->
  exists rx ry : list byte,
    samplesToRawData xs props = Done rx /\
    samplesToRawData ys props = Done ry /\
    samplesToRawData (xs ++ ys) props = Done (rx ++ ry).
Proof.
  intros Hb. rewrite !samplesToRawData_supported by exact Hb.
  eexists _, _. split; [reflexivity|]. split; [reflexivity|].
  now rewrite map_app, concat_app.
Qed.

Lemma samplesToRawData_app_witness :
  exists rx ry : list byte,
    samplesToRawData (ext := amd64) [Float64.one] mono16 = Done rx /\
    samplesToRawData (ext := amd64) [Float64.zero; Float64.two] mono16 = Done ry /\
    samplesToRawData (ext := amd64)
      ([Float64.one] ++ [Float64.zero; Float64.two]) mono16 = Done (rx ++ ry).
Proof.
  apply (samplesToRawData_app (ext := amd64)
           [Float64.one] [Float64.zero; Float64.two] mono16).
  left. reflexivity.
Defined.

Lemma samplesToRawData_loop_bits {ext : Externals}
    (samples : list Frame) (p1 p2 : WaveFmt) (raw : list byte) :
  BitsPerSample p1 = BitsPerSample p2 ->
  samplesToRawData_loop samples p1 raw = samplesToRawData_loop samples p2 raw.
Proof.
  intros Hb. revert raw. induction samples as [|s rest IH]; intros raw.
  - reflexivity.
  - cbn [samplesToRawData_loop]. rewrite Hb.
    destruct (appendIntFm !! BitsPerSample p2) as [f|]; [apply IH | reflexivity].
Qed.

(** X8.  The raw data depends on the descriptor through its bits per
    sample only: channel count, sample rate, byte rate, block alignment
    and tag play no part in the packing, panic included. *)
Theorem samplesToRawData_only_reads_depth {ext : Externals}
    (samples : list Frame) (p1 p2 : WaveFmt) :
  BitsPerSample p1 = BitsPerSample p2 ->
  samplesToRawData samples p1 = samplesToRawData samples p2.
Proof. intros Hb. now apply samplesToRawData_loop_bits. Qed.

Lemma samplesToRawData_only_reads_depth_witness :
  samplesToRawData (ext := amd64) [Float64.one] mono16
  = samplesToRawData (ext := amd64) [Float64.one] oddFmt.
Proof.
  apply (samplesToRawData_only_reads_depth (ext := amd64)
           [Float64.one] mono16 oddFmt).
  reflexivity.
Defined.

(** ** Sizes *)

(** X9.  For a supported bit depth, a channel count that is not
    negative and a computed size below [2^32], the data size field holds
    the channel count times the number of payload bytes that follow it:
    the field counts [len(frames) * NumChannels] samples where the packer
    wrote [len(frames)]. *)
Theorem data_size_is_channels_times_payload {ext : Externals}
    (samples : list Frame) (wfmt : WaveFmt)
    (wd : WaveData) (databits : list byte) :
  BitsPerSample wfmt = 16 \/ BitsPerSample wfmt = 32 ->
  0 <= NumChannels wfmt ->
  Z.of_nat (length samples) * NumChannels wfmt * (BitsPerSample wfmt / 8) < 2 ^ 32 ->
  framesToData samples wfmt = Done (wd, databits) ->
  let file := createHeader wd ++ fmtToBytes wfmt ++ databits in
  let t := length (Subchunk1ID wfmt) in
  uint32_at (36 + t) file
    = NumChannels wfmt * Z.of_nat (length (skipn (40 + t) file)).
Proof.
  intros Hb Hc Hfit Hd file t.
  destruct (data_size_and_payload samples wfmt wd databits Hb Hd) as [Hsize Hlen].
  fold file t in Hsize, Hlen. rewrite Hsize, Hlen.
  assert (Hk : exists k, BitsPerSample wfmt / 8 = k /\ BitsPerSample wfmt = k * 8 /\ 1 < k)
    by (destruct Hb as [Hb | Hb]; rewrite Hb; [exists 2 | exists 4]; repeat split; lia).
  destruct Hk as (k & Hk & Hk8 & Hk1).
  rewrite subchunksize_exact; [| exact Hb | exact Hc |].
  - rewrite Hk in *. rewrite Z.mod_small by nia. nia.
  - rewrite Hk in Hfit. rewrite Hk8. unfold max_int. nia.
Qed.

Lemma data_size_is_channels_times_payload_witness :
  let wd := {| wd_Subchunk2ID := Subchunk2ID; Subchunk2Size := 4;
               RawData := [x00; x00]; Frames := [Float64.zero] |} in
  let databits := Subchunk2ID ++ [x04; x00; x00; x00] ++ [x00; x00] in
  let file := createHeader wd ++ fmtToBytes stereo16 ++ databits in
  uint32_at 40 file = 2 * Z.of_nat (length (skipn 44 file)).
Proof.
  intros wd databits file.
  apply (data_size_is_channels_times_payload (ext := amd64)
           [Float64.zero] stereo16 wd databits);
    [left; reflexivity | vm_compute; discriminate | reflexivity | reflexivity].
Defined.

(** X10.  A file written for one channel, a supported bit depth and a
    4-byte tag is consistent as long as it stays below 4 GiB: the run on
    a buffer returns [nil], the RIFF chunk size is the length of the file
    less 8 and the data size is the length of the file less 44, the
    number of payload bytes. *)
Theorem mono_file_sizes_are_consistent {ext : Externals}
    (samples : list Frame) (wfmt : WaveFmt) :
  BitsPerSample wfmt = 16 \/ BitsPerSample wfmt = 32 ->
  NumChannels wfmt = 1 ->
  length (Subchunk1ID wfmt) = 4%nat ->
  44 + Z.of_nat (length samples) * (BitsPerSample wfmt / 8) < 2 ^ 32 ->
  exists out : list byte,
    WriteWaveToWriter samples wfmt emptyBuffer
      = ({| contents := out |}, Done None) /\
    uint32_at 4 out = Z.of_nat (length out) - 8 /\
    uint32_at 40 out = Z.of_nat (length out) - 44 /\
    uint32_at 40 out = Z.of_nat (length (skipn 44 out)).
Proof.
  intros Hb Hc Htag Hfit.
  pose proof (samplesToRawData_supported samples wfmt Hb) as Hraw.
  pose proof (framesToData_Done _ _ _ Hraw) as Hd.
  exists (createHeader
            {| wd_Subchunk2ID := Subchunk2ID;
               Subchunk2Size := subchunksize (length samples) wfmt;
               RawData := concat (map (packed (BitsPerSample wfmt)) samples);
               Frames := samples |}
          ++ fmtToBytes wfmt
          ++ Subchunk2ID
          ++ LittleEndian.encode 4 (subchunksize (length samples) wfmt mod 2 ^ 32)
          ++ concat (map (packed (BitsPerSample wfmt)) samples)).
  split; [apply (WriteWaveToWriter_Buffer _ _ emptyBuffer _ _ Hd)|].
  destruct (file_fields _ _ _ _ Hd)
    as (Hlen & _ & Hriff & _ & _ & _ & Hsize & Hskip).
  cbn [Subchunk2Size RawData] in Hlen, Hriff, Hsize, Hskip.
  rewrite Htag in Hlen, Hsize, Hskip.
  change (36 + 4)%nat with 40%nat in Hsize.
  change (40 + 4)%nat with 44%nat in Hskip, Hlen.
  rewrite Hriff, Hsize, Hskip, Hlen, concat_packed_length.
  assert (Hk : exists k, BitsPerSample wfmt / 8 = k /\ BitsPerSample wfmt = k * 8 /\ 1 < k)
    by (destruct Hb as [Hb | Hb]; rewrite Hb; [exists 2 | exists 4]; repeat split; lia).
  destruct Hk as (k & Hk & Hk8 & Hk1).
  rewrite subchunksize_exact; [| exact Hb | lia |].
  - rewrite Hc, Hk in *. rewrite !Z.mod_small by lia. lia.
  - rewrite Hc, Hk8. rewrite Hk in Hfit. unfold max_int. lia.
Qed.

Lemma mono_file_sizes_are_consistent_witness :
  exists out : list byte,
    WriteWaveToWriter (ext := amd64) [Float64.one; Float64.zero] mono16 emptyBuffer
      = ({| contents := out |}, Done None) /\
    uint32_at 4 out = Z.of_nat (length out) - 8 /\
    uint32_at 40 out = Z.of_nat (length out) - 44 /\
    uint32_at 40 out = Z.of_nat (length (skipn 44 out)).
Proof.
  apply (mono_file_sizes_are_consistent (ext := amd64)
           [Float64.one; Float64.zero] mono16);
    [left; reflexivity | reflexivity | reflexivity | reflexivity].
Defined.

(** ** The format chunk *)

Lemma encode_field16_inj (u v : Z) :
  0 <= u < 2 ^ 16 -> 0 <= v < 2 ^ 16 ->
  LittleEndian.encode 2 (u mod 2 ^ 16) = LittleEndian.encode 2 (v mod 2 ^ 16) ->
  u = v.
Proof.
  intros Hu Hv Heq.
  rewrite <- (Z.mod_small u (2 ^ 16)), <- (Z.mod_small v (2 ^ 16)) by lia.
  rewrite <- (decode_field16 u), <- (decode_field16 v). now rewrite Heq.
Qed.

Lemma encode_field32_inj (u v : Z) :
  0 <= u < 2 ^ 32 -> 0 <= v < 2 ^ 32 ->
  LittleEndian.encode 4 (u mod 2 ^ 32) = LittleEndian.encode 4 (v mod 2 ^ 32) ->
  u = v.
Proof.
  intros Hu Hv Heq.
  rewrite <- (Z.mod_small u (2 ^ 32)), <- (Z.mod_small v (2 ^ 32)) by lia.
  rewrite <- (decode_field32 u), <- (decode_field32 v). now rewrite Heq.
Qed.

Lemma app_same_length_inj (a1 a2 r1 r2 : list byte) :
  length a1 = length a2 -> a1 ++ r1 = a2 ++ r2 -> a1 = a2 /\ r1 = r2.
Proof.
  revert a2. induction a1 as [|x a1 IH]; intros [|y a2] Hlen Heq;
    try discriminate.
  - now split.
  - cbn in Heq. injection Heq as -> Heq. injection Hlen as Hlen.
    destruct (IH a2 Hlen Heq) as [-> ->]. now split.
Qed.

(** X11.  The format chunk loses nothing of a descriptor whose numbers
    fit their fields: two such descriptors with tags of the same length
    and the same format chunk are the same descriptor. *)
Theorem fmtToBytes_injective (w1 w2 : WaveFmt) :
  fits_format_chunk w1 ->
  fits_format_chunk w2 ->
  length (Subchunk1ID w1) = length (Subchunk1ID w2) ->
  fmtToBytes w1 = fmtToBytes w2 ->
  w1 = w2.
Proof.
  intros (A1 & B1 & C1 & D1 & E1 & F1 & G1) (A2 & B2 & C2 & D2 & E2 & F2 & G2)
         Htag Heq.
  rewrite !fmtToBytes_layout in Heq.
  apply app_same_length_inj in Heq as [Ht Heq]; [|exact Htag].
  apply app_same_length_inj in Heq as [Ha Heq]; [|reflexivity].
  apply app_same_length_inj in Heq as [Hb Heq]; [|reflexivity].
  apply app_same_length_inj in Heq as [Hc Heq]; [|reflexivity].
  apply app_same_length_inj in Heq as [Hd Heq]; [|reflexivity].
  apply app_same_length_inj in Heq as [He Heq]; [|reflexivity].
  apply app_same_length_inj in Heq as [Hf Hg]; [|reflexivity].
  apply encode_field32_inj in Ha; [|assumption..].
  apply encode_field16_inj in Hb; [|assumption..].
  apply encode_field16_inj in Hc; [|assumption..].
  apply encode_field32_inj in Hd; [|assumption..].
  apply encode_field32_inj in He; [|assumption..].
  apply encode_field16_inj in Hf; [|assumption..].
  apply encode_field16_inj in Hg; [|assumption..].
  destruct w1, w2; cbn in *; subst; reflexivity.
Qed.

Lemma fmtToBytes_injective_witness : mono16 = pcm 1 16.
Proof.
  apply (fmtToBytes_injective mono16 (pcm 1 16)).
  - unfold fits_format_chunk. vm_compute.
    repeat split; discriminate.
  - unfold fits_format_chunk. vm_compute.
    repeat split; discriminate.
  - reflexivity.
  - reflexivity.
Defined.

(** ** Panics of the encoder *)


Lemma framesToData_Panic_intro {ext : Externals}
    (samples : list Frame) (wfmt : WaveFmt) :
  samples <> [] -> BitsPerSample wfmt <> 16 -> BitsPerSample wfmt <> 32 ->
  framesToData samples wfmt = Panic.
Proof.
  intros Hne H16 H32. destruct samples as [|s rest]; [congruence|].
  apply framesToData_Panic. now apply samplesToRawData_loop_unsupported.
Qed.


(** ** A device that fills up *)

Lemma Device_Write_eq (d : Device) (p : list byte) :
  Write d p
  = ({| stored := stored d ++ firstn (free d) p;
        free := free d - length p |},
     (Nat.min (length p) (free d),
      if (length p <=? free d)%nat then None else Some ENOSPC)).
Proof.
  cbn [Write Device_Writer].
  destruct (Nat.leb_spec (length p) (free d)) as [Hle | Hgt].
  - rewrite firstn_all2 by lia. rewrite Nat.min_l by lia. reflexivity.
  - replace (free d - length p)%nat with 0%nat by lia.
    rewrite Nat.min_r by lia. reflexivity.
Qed.

(** X13.  On a device with room for [k] more bytes the encoder leaves
    exactly the first [k] bytes of the file, header first, and returns
    the device's error when the file is longer than [k]; when the file
    fits, all of it is stored and [nil] is returned. *)
Theorem full_device_keeps_a_prefix {ext : Externals}
    (samples : list Frame) (wfmt : WaveFmt)
    (wd : WaveData) (databits : list byte) (d : Device) :
  framesToData samples wfmt = Done (wd, databits) ->
  let file := createHeader wd ++ fmtToBytes wfmt ++ databits in
  WriteWaveToWriter samples wfmt d
  = ({| stored := stored d ++ firstn (free d) file;
        free := free d - length file |},
     Done (if (length file <=? free d)%nat then None else Some ENOSPC)).
Proof.
  intros Hd file. subst file. unfold WriteWaveToWriter. rewrite Hd.
  set (hdr := createHeader wd). set (wfb := fmtToBytes wfmt).
  rewrite !length_app, !firstn_app.
  rewrite (Device_Write_eq d hdr).
  destruct (Nat.leb_spec (length hdr) (free d)) as [H1 | H1].
  - rewrite Device_Write_eq. cbn [stored free].
    destruct (Nat.leb_spec (length wfb) (free d - length hdr)) as [H2 | H2].
    + rewrite Device_Write_eq. cbn [stored free].
      destruct (Nat.leb_spec (length databits) (free d - length hdr - length wfb))
        as [H3 | H3].
      * destruct (Nat.leb_spec (length hdr + (length wfb + length databits)) (free d));
          [|lia].
        rewrite <- !app_assoc.
        do 2 f_equal; lia.
      * destruct (Nat.leb_spec (length hdr + (length wfb + length databits)) (free d));
          [lia|].
        rewrite <- !app_assoc.
        do 2 f_equal; lia.
    + destruct (Nat.leb_spec (length hdr + (length wfb + length databits)) (free d));
        [lia|].
      replace (free d - length hdr - length wfb)%nat with 0%nat by lia.
      cbn [firstn]. rewrite app_nil_r, <- !app_assoc.
      do 2 f_equal; lia.
  - destruct (Nat.leb_spec (length hdr + (length wfb + length databits)) (free d));
      [lia|].
    replace (free d - length hdr)%nat with 0%nat by lia.
    cbn [firstn Nat.sub]. rewrite !app_nil_r.
    do 2 f_equal; lia.
Qed.

Lemma full_device_keeps_a_prefix_witness :
  let wd := {| wd_Subchunk2ID := Subchunk2ID; Subchunk2Size := 2;
               RawData := [xff; x7f]; Frames := [Float64.one] |} in
  let databits := Subchunk2ID ++ [x02; x00; x00; x00] ++ [xff; x7f] in
  let file := createHeader wd ++ fmtToBytes mono16 ++ databits in
  WriteWaveToWriter (ext := amd64) [Float64.one] mono16
    {| stored := []; free := 20 |}
  = ({| stored := firstn 20 file; free := 0 |}, Done (Some ENOSPC)).
Proof.
  intros wd databits file.
  apply (full_device_keeps_a_prefix (ext := amd64) [Float64.one] mono16
           wd databits {| stored := []; free := 20 |}).
  reflexivity.
Defined.

(** ** Writing to a named file *)

Section NamedFile.

Context {ext : Externals}.
Context {FS File : Type} `{FileSystem FS File}.

(** The [Write] calls an open file of a traced file system receives. *)
Lemma WriteWaveToWriter_open_file
    (samples : list Frame) (wfmt : WaveFmt) (t : Traced FS) (f : File)
    (wd : WaveData) (databits : list byte) :
  framesToData samples wfmt = Done (wd, databits) ->
  exists (t' : Traced FS) (ws : list OsCall) (r : option error),
    WriteWaveToWriter samples wfmt (t, f) = ((t', f), Done r) /\
    calls t' = calls t ++ ws /\
    writes_upto [createHeader wd; fmtToBytes wfmt; databits] ws r.
Proof.
  intros Hd. unfold WriteWaveToWriter. rewrite Hd.
  set (hdr := createHeader wd). set (wfb := fmtToBytes wfmt).
  clearbody hdr wfb.
  cbn [Write OpenFile_Writer File_Write Traced_FileSystem fst snd world calls].
  destruct (File_Write (world t) f hdr) as [fs1 [n1 [e1|]]] eqn:E1;
    cbn [fst snd world calls].
  { eexists _, _, _. split; [reflexivity|]. split; [reflexivity|].
    apply writes_upto_fail. }
  apply File_Write_contract in E1 as ->.
  destruct (File_Write fs1 f wfb) as [fs2 [n2 [e2|]]] eqn:E2;
    cbn [fst snd world calls].
  { eexists _, _, _. split; [reflexivity|].
    split; [rewrite <- app_assoc; reflexivity|].
    apply writes_upto_ok, writes_upto_fail. }
  apply File_Write_contract in E2 as ->.
  destruct (File_Write fs2 f databits) as [fs3 [n3 [e3|]]] eqn:E3;
    cbn [fst snd world calls].
  { eexists _, _, _. split; [reflexivity|].
    split; [rewrite <- !app_assoc; reflexivity|].
    apply writes_upto_ok, writes_upto_ok, writes_upto_fail. }
  apply File_Write_contract in E3 as ->.
  eexists _, _, _. split; [reflexivity|].
  split; [rewrite <- !app_assoc; reflexivity|].
  apply writes_upto_ok, writes_upto_ok, writes_upto_ok, writes_upto_nil.
Qed.

(** Every run of [WriteWaveFile] on a traced file system, by what
    [Create] returned and whether the encoder panicked. *)
Lemma WriteWaveFile_calls
    (samples : list Frame) (wfmt : WaveFmt) (file : string) (fs : FS) :
  let run := WriteWaveFile samples wfmt file (traced fs) in
  (exists e,
      calls (fst run) = [CallCreate file (Some e)] /\
      snd run = Done (Some e))
  \/ (exists ce,
      framesToData samples wfmt = Panic /\
      calls (fst run) = [CallCreate file None; CallClose ce] /\
      snd run = Panic)
  \/ (exists wd databits ws r ce,
      framesToData samples wfmt = Done (wd, databits) /\
      writes_upto [createHeader wd; fmtToBytes wfmt; databits] ws r /\
      calls (fst run) = CallCreate file None :: ws ++ [CallClose ce] /\
      snd run = Done r).
Proof.
  intros run. subst run. unfold WriteWaveFile.
  cbn [os_Create Traced_FileSystem traced world calls app].
  destruct (os_Create fs file) as [fs1 [f | e]] eqn:Ecreate.
  - destruct (framesToData samples wfmt) as [[wd databits]|] eqn:Hd.
    + right; right.
      destruct (WriteWaveToWriter_open_file samples wfmt
                  {| world := fs1; calls := [CallCreate file None] |} f
                  wd databits Hd) as (t' & ws & r & Hrun & Hcalls & Hws).
      rewrite Hrun. cbn [fst File_Close Traced_FileSystem].
      destruct (File_Close (world t') f) as [fs2 ce] eqn:Eclose.
      exists wd, databits, ws, r, ce.
      split; [reflexivity|]. split; [exact Hws|].
      cbn [fst snd calls]. rewrite Hcalls. split; reflexivity.
    + right; left.
      rewrite (WriteWaveToWriter_Panic samples wfmt
                 ({| world := fs1; calls := [CallCreate file None] |}, f) Hd).
      cbn [fst File_Close Traced_FileSystem world calls].
      destruct (File_Close fs1 f) as [fs2 ce] eqn:Eclose.
      exists ce. repeat split; reflexivity.
  - left. exists e. split; reflexivity.
Qed.

End NamedFile.

Lemma writes_upto_all_writes
    (regions : list (list byte)) (ws : list OsCall) (r : option error) :
  writes_upto regions ws r -> Forall is_write ws.
Proof.
  induction 1; repeat constructor; assumption.
Qed.

Lemma writes_upto_length
    (regions : list (list byte)) (ws : list OsCall) (r : option error) :
  writes_upto regions ws r -> (length ws <= length regions)%nat.
Proof. induction 1; cbn [length]; lia. Qed.

(** An error comes from the last call of the attempt. *)
Lemma writes_upto_error
    (regions : list (list byte)) (ws : list OsCall) (e : error) :
  writes_upto regions ws (Some e) ->
  exists ws' p n, ws = ws' ++ [CallWrite p n (Some e)].
Proof.
  remember (Some e) as r eqn:Hr. induction 1 as [|p rest n e'|p rest ws r Hw IH].
  - discriminate.
  - injection Hr as ->. exists [], p, n. reflexivity.
  - destruct (IH Hr) as (ws' & q & n & ->).
    exists (CallWrite p (length p) None :: ws'), q, n. reflexivity.
Qed.

(** A [nil] result means every region was written in full, in order. *)
Lemma writes_upto_nil_inv
    (regions : list (list byte)) (ws : list OsCall) :
  writes_upto regions ws None ->
  ws = map (fun p => CallWrite p (length p) None) regions.
Proof.
  remember None as r eqn:Hr. induction 1 as [|p rest n e'|p rest ws r Hw IH].
  - reflexivity.
  - discriminate.
  - subst r. cbn [map]. now rewrite (IH eq_refl).
Qed.

(** X14.  [WriteFrames] calls [Create] once, first.  When [Create] fails
    nothing else is called.  When it succeeds, [Close] is called exactly
    once and is the last call, whether the encoder returned [nil],
    returned an error or panicked; in between there are only [Write]
    calls, three at most. *)
Theorem WriteFrames_closes_what_it_opens {ext : Externals}
    {FS File : Type} `{FileSystem FS File}
    (samples : list Frame) (wfmt : WaveFmt) (file : string) (fs : FS) :
  let cs := calls (fst (WriteFrames samples wfmt file (traced fs))) in
  (exists e, cs = [CallCreate file (Some e)])
  \/ (exists ws ce,
        cs = CallCreate file None :: ws ++ [CallClose ce] /\
        Forall is_write ws /\
        (length ws <= 3)%nat).
Proof.
  intros cs. subst cs. unfold WriteFrames.
  destruct (WriteWaveFile_calls samples wfmt file fs)
    as [(e & Hc & _) | [(ce & _ & Hc & _) | (wd & databits & ws & r & ce & _ & Hws & Hc & _)]].
  - left. now exists e.
  - right. exists [], ce. split; [exact Hc|]. split; [constructor | cbn; lia].
  - right. exists ws, ce. split; [exact Hc|].
    split; [eapply writes_upto_all_writes; eassumption|].
    apply writes_upto_length in Hws. exact Hws.
Qed.

(** X15.  When [WriteFrames] returns [nil], the file was created, the
    header, the format chunk and the data chunk were each written in
    full, in this order, and the file was closed; what [Close] returned
    plays no part. *)
Theorem WriteFrames_nil_means_written {ext : Externals}
    {FS File : Type} `{FileSystem FS File}
    (samples : list Frame) (wfmt : WaveFmt) (file : string) (fs : FS) :
  snd (WriteFrames samples wfmt file (traced fs)) = Done None ->
  exists wd databits ce,
    framesToData samples wfmt = Done (wd, databits) /\
    calls (fst (WriteFrames samples wfmt file (traced fs)))
    = [CallCreate file None;
       CallWrite (createHeader wd) (length (createHeader wd)) None;
       CallWrite (fmtToBytes wfmt) (length (fmtToBytes wfmt)) None;
       CallWrite databits (length databits) None;
       CallClose ce].
Proof.
  unfold WriteFrames. intros Hnil.
  destruct (WriteWaveFile_calls samples wfmt file fs)
    as [(e & _ & Hr) | [(ce & _ & _ & Hr) | (wd & databits & ws & r & ce & Hd & Hws & Hc & Hr)]];
    try (rewrite Hr in Hnil; discriminate).
  rewrite Hr in Hnil. injection Hnil as ->.
  apply writes_upto_nil_inv in Hws. subst ws.
  exists wd, databits, ce. split; [exact Hd | exact Hc].
Qed.

Lemma WriteFrames_nil_means_written_witness :
  let run := WriteFrames (ext := amd64) [Float64.one] mono16 "take.wav"
               (traced {| under := someFS |}) in
  snd run = Done None /\
  List.last (calls (fst run)) (CallClose None) = CallClose (Some EIO) /\
  exists wd databits ce,
    framesToData (ext := amd64) [Float64.one] mono16 = Done (wd, databits) /\
    calls (fst run)
    = [CallCreate "take.wav" None;
       CallWrite (createHeader wd) (length (createHeader wd)) None;
       CallWrite (fmtToBytes mono16) (length (fmtToBytes mono16)) None;
       CallWrite databits (length databits) None;
       CallClose ce].
Proof.
  intros run. split; [vm_compute; reflexivity|]. split; [vm_compute; reflexivity|].
  apply (WriteFrames_nil_means_written (ext := amd64) [Float64.one] mono16
           "take.wav" {| under := someFS |}).
  vm_compute. reflexivity.
Defined.

(** X16.  An error returned by [WriteFrames] is the error of [Create],
    after which nothing was called, or the error of the last [Write]
    before the closing call. *)
Theorem WriteFrames_error_provenance {ext : Externals}
    {FS File : Type} `{FileSystem FS File}
    (samples : list Frame) (wfmt : WaveFmt) (file : string) (fs : FS) (e : error) :
  snd (WriteFrames samples wfmt file (traced fs)) = Done (Some e) ->
  let cs := calls (fst (WriteFrames samples wfmt file (traced fs))) in
  cs = [CallCreate file (Some e)]
  \/ exists ws p n ce,
       cs = CallCreate file None :: ws ++ [CallWrite p n (Some e); CallClose ce].
Proof.
  intros Herr cs. subst cs. unfold WriteFrames in *.
  destruct (WriteWaveFile_calls samples wfmt file fs)
    as [(e' & Hc & Hr) | [(ce & _ & _ & Hr) | (wd & databits & ws & r & ce & _ & Hws & Hc & Hr)]];
    rewrite Hr in Herr; try discriminate.
  - injection Herr as ->. now left.
  - injection Herr as ->. right.
    destruct (writes_upto_error _ _ _ Hws) as (ws' & p & n & ->).
    exists ws', p, n, ce. rewrite Hc, <- app_assoc. reflexivity.
Qed.

Lemma WriteFrames_error_provenance_witness :
  let cs := calls (fst (WriteFrames (ext := amd64) [Float64.one] mono16 ""
                          (traced someFS))) in
  cs = [CallCreate "" (Some ENOENT)]
  \/ exists ws p n ce,
       cs = CallCreate "" None :: ws ++ [CallWrite p n (Some ENOENT); CallClose ce].
Proof.
  apply (WriteFrames_error_provenance (ext := amd64) [Float64.one] mono16 ""
           someFS ENOENT).
  vm_compute. reflexivity.
Defined.

(** X17.  The bit depth is looked at after the file was created: for a
    non-empty sample sequence and a depth that is neither 16 nor 32,
    [WriteFrames] either returns the error of [Create], or creates the
    file, closes it without a single [Write] and panics. *)
Theorem WriteFrames_creates_before_panicking {ext : Externals}
    {FS File : Type} `{FileSystem FS File}
    (samples : list Frame) (wfmt : WaveFmt) (file : string) (fs : FS) :
  samples <> [] ->
  BitsPerSample wfmt <> 16 ->
  BitsPerSample wfmt <> 32 ->
  let run := WriteFrames samples wfmt file (traced fs) in
  (exists e, calls (fst run) = [CallCreate file (Some e)] /\
             snd run = Done (Some e))
  \/ (exists ce, calls (fst run) = [CallCreate file None; CallClose ce] /\
                 snd run = Panic).
Proof.
  intros Hne H16 H32 run. subst run. unfold WriteFrames.
  pose proof (framesToData_Panic_intro samples wfmt Hne H16 H32) as Hp.
  destruct (WriteWaveFile_calls samples wfmt file fs)
    as [(e & Hc & Hr) | [(ce & _ & Hc & Hr) | (wd & databits & ws & r & ce & Hd & _)]].
  - left. now exists e.
  - right. now exists ce.
  - rewrite Hp in Hd. discriminate.
Qed.

Lemma WriteFrames_creates_before_panicking_witness :
  let run := WriteFrames (ext := amd64) [Float64.one] mono8 "take.wav"
               (traced someFS) in
  (exists e, calls (fst run) = [CallCreate "take.wav" (Some e)] /\
             snd run = Done (Some e))
  \/ (exists ce, calls (fst run) = [CallCreate "take.wav" None; CallClose ce] /\
                 snd run = Panic).
Proof.
  apply (WriteFrames_creates_before_panicking (ext := amd64)
           [Float64.one] mono8 "take.wav" someFS);
    [discriminate | vm_compute; discriminate | vm_compute; discriminate].
Defined.

(** ** Files in memory *)

Lemma mem_lookup_remove_eq (name : string) (l : list (string * list byte)) :
  mem_lookup name (mem_remove name l) = None.
Proof.
  induction l as [|[k v] l IH]; [reflexivity|].
  cbn [mem_remove]. destruct (String.eqb k name) eqn:E; [exact IH|].
  cbn [mem_lookup]. now rewrite E.
Qed.

Lemma mem_lookup_remove_ne (name other : string) (l : list (string * list byte)) :
  other <> name ->
  mem_lookup other (mem_remove name l) = mem_lookup other l.
Proof.
  intros Hne. induction l as [|[k v] l IH]; [reflexivity|].
  cbn [mem_remove mem_lookup].
  destruct (String.eqb k name) eqn:E.
  - apply String.eqb_eq in E. subst k.
    destruct (String.eqb name other) eqn:E'; [|exact IH].
    apply String.eqb_eq in E'. congruence.
  - cbn [mem_lookup]. destruct (String.eqb k other); [reflexivity | exact IH].
Qed.

Lemma mem_lookup_store_eq (name : string) (v : list byte)
    (l : list (string * list byte)) :
  mem_lookup name (mem_store name v l) = Some v.
Proof. unfold mem_store. cbn [mem_lookup]. now rewrite String.eqb_refl. Qed.

Lemma mem_lookup_store_ne (name other : string) (v : list byte)
    (l : list (string * list byte)) :
  other <> name ->
  mem_lookup other (mem_store name v l) = mem_lookup other l.
Proof.
  intros Hne. unfold mem_store. cbn [mem_lookup].
  destruct (String.eqb name other) eqn:E.
  - apply String.eqb_eq in E. congruence.
  - now apply mem_lookup_remove_ne.
Qed.

Lemma mem_store_store (name : string) (u v : list byte)
    (l : list (string * list byte)) :
  mem_store name v (mem_store name u l) = mem_store name v l.
Proof.
  unfold mem_store. cbn [mem_remove]. rewrite String.eqb_refl. f_equal.
  induction l as [|[k w] l IH]; [reflexivity|].
  cbn [mem_remove]. destruct (String.eqb k name) eqn:E; [exact IH|].
  cbn [mem_remove]. rewrite E. now rewrite IH.
Qed.

Lemma filter_not_open (name : string) (l : list string) :
  existsb (String.eqb name) l = false ->
  List.filter (fun g => negb (String.eqb name g)) l = l.
Proof.
  induction l as [|g l IH]; [reflexivity|].
  cbn [existsb]. intros Hex. apply orb_false_elim in Hex as [Hg Hl].
  cbn [List.filter]. rewrite Hg. cbn [negb]. now rewrite IH.
Qed.

(** A write to an open file of a [MemFS] appends. *)
Lemma MemFS_Write_open (fs : MemFS) (f : string) (p : list byte) :
  is_open f fs = true ->
  Write (fs, f) p
  = (({| files := mem_store f (default [] (mem_lookup f (files fs)) ++ p) (files fs);
         opened := opened fs |}, f),
     (length p, None)).
Proof.
  intros Hopen. cbn [Write OpenFile_Writer File_Write MemFS_FileSystem fst snd].
  now rewrite Hopen.
Qed.

(** The whole run on a freshly created file of a [MemFS]. *)
Lemma MemFS_WriteWaveFile_Done {ext : Externals}
    (samples : list Frame) (wfmt : WaveFmt) (file : string) (fs : MemFS)
    (wd : WaveData) (databits : list byte) :
  file <> EmptyString ->
  is_open file fs = false ->
  framesToData samples wfmt = Done (wd, databits) ->
  WriteWaveFile samples wfmt file fs
  = ({| files := mem_store file (createHeader wd ++ fmtToBytes wfmt ++ databits)
                           (files fs);
        opened := opened fs |},
     Done None).
Proof.
  intros Hname Hclosed Hd. unfold WriteWaveFile.
  cbn [os_Create MemFS_FileSystem].
  apply String.eqb_neq in Hname. rewrite Hname.
  unfold WriteWaveToWriter. rewrite Hd.
  set (hdr := createHeader wd). set (wfb := fmtToBytes wfmt).
  set (fs1 := {| files := mem_store file [] (files fs);
                 opened := file :: opened fs |}).
  assert (Hopen : forall l, is_open file {| files := l; opened := file :: opened fs |} = true).
  { intros l. unfold is_open. cbn [opened existsb]. now rewrite String.eqb_refl. }
  rewrite (MemFS_Write_open fs1 file hdr (Hopen _)).
  cbn [files opened fs1]. rewrite mem_lookup_store_eq. cbn [default app].
  rewrite MemFS_Write_open by apply Hopen.
  cbn [files opened]. rewrite mem_lookup_store_eq. cbn [default].
  rewrite MemFS_Write_open by apply Hopen.
  cbn [files opened]. rewrite mem_lookup_store_eq. cbn [default fst].
  cbn [File_Close MemFS_FileSystem]. rewrite Hopen.
  cbn [files opened List.filter]. rewrite String.eqb_refl. cbn [negb].
  unfold is_open in Hclosed. rewrite (filter_not_open _ _ Hclosed).
  rewrite !mem_store_store. unfold id. cbn [app].
  now rewrite <- app_assoc.
Qed.

Lemma MemFS_WriteWaveFile_Panic {ext : Externals}
    (samples : list Frame) (wfmt : WaveFmt) (file : string) (fs : MemFS) :
  file <> EmptyString ->
  is_open file fs = false ->
  framesToData samples wfmt = Panic ->
  WriteWaveFile samples wfmt file fs
  = ({| files := mem_store file [] (files fs); opened := opened fs |}, Panic).
Proof.
  intros Hname Hclosed Hd. unfold WriteWaveFile.
  cbn [os_Create MemFS_FileSystem].
  apply String.eqb_neq in Hname. rewrite Hname.
  rewrite (WriteWaveToWriter_Panic samples wfmt _ Hd). cbn [fst].
  cbn [File_Close MemFS_FileSystem]. unfold is_open at 1.
  cbn [opened existsb]. rewrite String.eqb_refl. cbn [orb].
  cbn [files opened List.filter]. rewrite String.eqb_refl. cbn [negb].
  unfold is_open in Hclosed. now rewrite (filter_not_open _ _ Hclosed).
Qed.

(** X18.  On files kept in memory, writing to a name that is not open
    replaces the file: whenever the encoder does not panic the call
    returns [nil], the named file holds exactly the header, the format
    chunk and the data chunk whatever it held before, every other file is
    as it was and no handle is left open. *)
Theorem WriteFrames_replaces_the_file {ext : Externals}
    (samples : list Frame) (wfmt : WaveFmt) (file : string) (fs : MemFS)
    (wd : WaveData) (databits : list byte) :
  file <> EmptyString ->
  is_open file fs = false ->
  framesToData samples wfmt = Done (wd, databits) ->
  let run := WriteFrames samples wfmt file fs in
  snd run = Done None /\
  mem_lookup file (files (fst run))
    = Some (createHeader wd ++ fmtToBytes wfmt ++ databits) /\
  (forall other, other <> file ->
     mem_lookup other (files (fst run)) = mem_lookup other (files fs)) /\
  opened (fst run) = opened fs.
Proof.
  intros Hname Hclosed Hd run. subst run. unfold WriteFrames.
  rewrite (MemFS_WriteWaveFile_Done _ _ _ _ _ _ Hname Hclosed Hd).
  cbn [fst snd files opened].
  split; [reflexivity|]. split; [apply mem_lookup_store_eq|].
  split; [|reflexivity].
  intros other Hne. now apply mem_lookup_store_ne.
Qed.

Lemma WriteFrames_replaces_the_file_witness :
  let wd := {| wd_Subchunk2ID := Subchunk2ID; Subchunk2Size := 2;
               RawData := [xff; x7f]; Frames := [Float64.one] |} in
  let databits := Subchunk2ID ++ [x02; x00; x00; x00] ++ [xff; x7f] in
  let run := WriteFrames (ext := amd64) [Float64.one] mono16 "take.wav" someFS in
  snd run = Done None /\
  mem_lookup "take.wav" (files (fst run))
    = Some (createHeader wd ++ fmtToBytes mono16 ++ databits) /\
  (forall other, other <> "take.wav"%string ->
     mem_lookup other (files (fst run)) = mem_lookup other (files someFS)) /\
  opened (fst run) = opened someFS.
Proof.
  intros wd databits.
  apply (WriteFrames_replaces_the_file (ext := amd64) [Float64.one] mono16
           "take.wav" someFS wd databits);
    [discriminate | reflexivity | reflexivity].
Defined.

(** X19.  On files kept in memory, a non-empty sample sequence with a
    bit depth that is neither 16 nor 32 costs the named file its
    contents: the call panics and leaves the file empty, whatever it held
    before; the other files are as they were and no handle is left
    open. *)
Theorem WriteFrames_unsupported_depth_empties_the_file {ext : Externals}
    (samples : list Frame) (wfmt : WaveFmt) (file : string) (fs : MemFS) :
  file <> EmptyString ->
  is_open file fs = false ->
  samples <> [] ->
  BitsPerSample wfmt <> 16 ->
  BitsPerSample wfmt <> 32 ->
  let run := WriteFrames samples wfmt file fs in
  snd run = Panic /\
  mem_lookup file (files (fst run)) = Some [] /\
  (forall other, other <> file ->
     mem_lookup other (files (fst run)) = mem_lookup other (files fs)) /\
  opened (fst run) = opened fs.
Proof.
  intros Hname Hclosed Hne H16 H32 run. subst run. unfold WriteFrames.
  rewrite (MemFS_WriteWaveFile_Panic _ _ _ _ Hname Hclosed
             (framesToData_Panic_intro _ _ Hne H16 H32)).
  cbn [fst snd files opened].
  split; [reflexivity|]. split; [apply mem_lookup_store_eq|].
  split; [|reflexivity].
  intros other Hother. now apply mem_lookup_store_ne.
Qed.

Lemma WriteFrames_unsupported_depth_empties_the_file_witness :
  let run := WriteFrames (ext := amd64) [Float64.one] mono8 "take.wav" someFS in
  mem_lookup "take.wav" (files someFS) = Some [x01; x02; x03] /\
  snd run = Panic /\
  mem_lookup "take.wav" (files (fst run)) = Some [] /\
  (forall other, other <> "take.wav"%string ->
     mem_lookup other (files (fst run)) = mem_lookup other (files someFS)) /\
  opened (fst run) = opened someFS.
Proof.
  intros run. split; [reflexivity|].
  apply (WriteFrames_unsupported_depth_empties_the_file (ext := amd64)
           [Float64.one] mono8 "take.wav" someFS);
    [discriminate | reflexivity | discriminate
     | vm_compute; discriminate | vm_compute; discriminate].
Defined.

(** ** [floatToBytes] *)

(** X20.  [PutUint64] panics exactly on slices shorter than 8, whatever
    their capacity; [floatToBytes] hands it a slice of length 0 and
    capacity 8, so it panics on every number and every count of bytes
    asked for, and never returns a slice. *)
Theorem floatToBytes_always_panics (nan : Z) (f : Float64.float64) (nBytes : Z) :
  (forall (b : Slice) (v : Z), PutUint64 b v = Panic <-> (len b < 8)%nat) /\
  len (make 0 8) = 0%nat /\
  cap (make 0 8) = 8%nat /\
  floatToBytes nan f nBytes = Panic.
Proof.
  split.
  - intros b v. unfold PutUint64.
    destruct (Nat.ltb_spec 7 (len b)) as [Hlt | Hge].
    + split; [discriminate | lia].
    + split; [lia | reflexivity].
  - split; [reflexivity|]. split; reflexivity.
Qed.

(** ** The data chunk and silence *)

(** X21.  What [framesToData] returns hangs together: the [WaveData]
    carries the [data] tag, the frames it was given and the raw data of
    the packer, and the byte sequence is the tag, four bytes of size and
    that raw data, so it is 8 bytes longer than the raw data. *)
Theorem framesToData_returns_consistent_pair {ext : Externals}
    (frames : list Frame) (wfmt : WaveFmt)
    (wd : WaveData) (databits : list byte) :
  framesToData frames wfmt = Done (wd, databits) ->
  wd_Subchunk2ID wd = Subchunk2ID /\
  Frames wd = frames /\
  samplesToRawData frames wfmt = Done (RawData wd) /\
  field 0 4 databits = Subchunk2ID /\
  uint32_at 4 databits = Subchunk2Size wd mod 2 ^ 32 /\
  skipn 8 databits = RawData wd /\
  length databits = (8 + length (RawData wd))%nat.
Proof.
  intros Hd.
  destruct (framesToData_inv _ _ _ _ Hd) as (Hraw & Hsz & Hbits).
  pose proof (framesToData_Done _ _ _ Hraw) as Hd'.
  rewrite Hd in Hd'. injection Hd' as Hwd _.
  split; [now rewrite Hwd|]. split; [now rewrite Hwd|].
  split; [exact Hraw|].
  rewrite Hbits, <- Hsz.
  set (size_field := LittleEndian.encode 4 (Subchunk2Size wd mod 2 ^ 32)).
  assert (Hsf : length size_field = 4%nat) by apply LittleEndianFacts.encode_length.
  split; [reflexivity|].
  split; [|split].
  - unfold uint32_at.
    change (field 4 4 ?l) with (field (length Subchunk2ID + 0) 4 l).
    rewrite field_app_skip, field_here_n by exact Hsf.
    apply decode_field32.
  - change 8%nat with (length Subchunk2ID + (4 + 0))%nat.
    rewrite <- Hsf at 1. rewrite !skipn_app_skip. apply skipn_O.
  - rewrite !length_app, Hsf. reflexivity.
Qed.

Lemma framesToData_returns_consistent_pair_witness :
  let wd := {| wd_Subchunk2ID := Subchunk2ID; Subchunk2Size := 4;
               RawData := [x00; x00]; Frames := [Float64.zero] |} in
  let databits := Subchunk2ID ++ [x04; x00; x00; x00] ++ [x00; x00] in
  wd_Subchunk2ID wd = Subchunk2ID /\
  Frames wd = [Float64.zero] /\
  samplesToRawData (ext := amd64) [Float64.zero] stereo16 = Done (RawData wd) /\
  field 0 4 databits = Subchunk2ID /\
  uint32_at 4 databits = Subchunk2Size wd mod 2 ^ 32 /\
  skipn 8 databits = RawData wd /\
  length databits = (8 + length (RawData wd))%nat.
Proof.
  intros wd databits.
  apply (framesToData_returns_consistent_pair (ext := amd64)
           [Float64.zero] stereo16 wd databits).
  reflexivity.
Defined.

(** X22.  Silence stays silence: when the table entry of the width
    converts to a finite [float64] (or is absent), a zero sample of
    either sign is rescaled to 0, and for a supported width a sequence of
    zero samples is packed as zero bytes only. *)
Theorem silence_is_packed_as_zero_bytes {ext : Externals}
    (samples : list Frame) (props : WaveFmt) :
  BitsPerSample props = 16 \/ BitsPerSample props = 32 ->
  Float64.is_finite
    (Float64.of_int (default 0 (maxValues !! BitsPerSample props))) = true ->
  Forall (fun s => exists sign, s = S754_zero sign) samples ->
  Forall (fun s => rescaleFrame s (BitsPerSample props) = 0) samples /\
  exists raw : list byte,
    samplesToRawData samples props = Done raw /\
    Forall (fun b => b = x00) raw.
Proof.
  intros Hb Hfin Hzero.
  assert (Hres : Forall (fun s => rescaleFrame s (BitsPerSample props) = 0) samples).
  { induction Hzero as [|s rest [sign ->] _ IH]; constructor; [|exact IH].
    unfold rescaleFrame.
    destruct (Float64.of_int (default 0 (maxValues !! BitsPerSample props)))
      as [sy | sy | | sy my ey]; try discriminate; reflexivity. }
  split; [exact Hres|].
  eexists. split; [now apply samplesToRawData_supported|].
  clear Hzero. induction Hres as [|s rest Hs _ IH]; [constructor|].
  cbn [map concat]. apply Forall_app. split; [|exact IH].
  unfold packed. rewrite Hs.
  destruct Hb as [Hb | Hb]; rewrite Hb; repeat constructor.
Qed.

Lemma silence_is_packed_as_zero_bytes_witness :
  Forall (fun s => rescaleFrame (ext := amd64) s 32 = 0)
         [S754_zero false; S754_zero true] /\
  exists raw : list byte,
    samplesToRawData (ext := amd64) [S754_zero false; S754_zero true] (pcm 1 32)
      = Done raw /\
    Forall (fun b => b = x00) raw.
Proof.
  apply (silence_is_packed_as_zero_bytes (ext := amd64)
           [S754_zero false; S754_zero true] (pcm 1 32)).
  - right. reflexivity.
  - reflexivity.
  - repeat constructor; eexists; reflexivity.
Defined.
